(** * FarmVibes.AI Sentinel/SpaceEye notebook: raster access and temporal
      compositing toolkit

    Shallow embedding of the non-plotting logic of
    [notebooks/sentinel/sentinel_spaceeye.ipynb]:

    - the stable [sorted(..., key=...)] calls that order raster collections by
      acquisition time and pick the raster nearest in time to a reference;
    - the cloud-cover ratio and the two threshold comprehensions that split
      the acquisitions into cloud-free and cloudy ones;
    - the window resolver and the windowed reader the notebook imports
      ([geometry_window], [read_raster]), whose bodies are not part of the
      notebook and are modelled from the specification.

    Time stamps are exact integers (microseconds, as Python's [datetime] and
    [timedelta] count them); coordinates are exact rationals; the mean of a
    mask is computed in binary64, each operation rounded as IEEE 754 has
    it. *)

From Stdlib Require Import String ZArith QArith Qround Qminmax Lqa Lia Bool List.
From Stdlib Require Import Permutation Sorted.
Import ListNotations.

Local Open Scope Z_scope.

(** ** Python values used by the notebook *)

Module Py.

(** An exception is identified by the name of its class. *)
Definition exn := string.

Inductive result (A : Type) : Type :=
| Ok (a : A)
| Raise (e : exn).
Arguments Ok {A} a.
Arguments Raise {A} e.

Definition bind {A B} (r : result A) (k : A -> result B) : result B :=
  match r with
  | Ok a => k a
  | Raise e => Raise e
  end.

(** [l[i]]: a negative index counts from the end, an index outside the list
    raises [IndexError]. *)
Definition getitem {A} (l : list A) (i : Z) : result A :=
  let n := Z.of_nat (length l) in
  let j := if i <? 0 then i + n else i in
  if (j <? 0) || (n <=? j) then Raise "IndexError"%string
  else match nth_error l (Z.to_nat j) with
       | Some a => Ok a
       | None => Raise "IndexError"%string
       end.

Section Sorted.
Context {A : Type} (key : A -> Z).

(** Insertion of [x] in front of the first element whose key is not
    smaller: [x] stays ahead of the elements with an equal key. *)
Fixpoint insert (x : A) (l : list A) : list A :=
  match l with
  | [] => [x]
  | y :: l' => if key x <=? key y then x :: y :: l' else y :: insert x l'
  end.

(** [sorted(l, key=key)]: Python's sort is stable, and a stable sort has
    one possible result, computed here by insertion from the right. *)
Fixpoint sorted (l : list A) : list A :=
  match l with
  | [] => []
  | x :: l' => insert x (sorted l')
  end.

Definition key_le (x y : A) : Prop := key x <= key y.

Definition has_key (k : Z) (x : A) : bool := key x =? k.
End Sorted.

(** [datetime(y, m, d)] as microseconds since the proleptic Gregorian
    ordinal 0, following CPython's [_ymd2ord]. *)
Definition is_leap (y : Z) : bool :=
  (y mod 4 =? 0) && (negb (y mod 100 =? 0) || (y mod 400 =? 0)).

Definition days_before_year (y : Z) : Z :=
  let y' := y - 1 in y' * 365 + y' / 4 - y' / 100 + y' / 400.

Definition days_in_month (y m : Z) : Z :=
  if m =? 2 then (if is_leap y then 29 else 28)
  else if (m =? 4) || (m =? 6) || (m =? 9) || (m =? 11) then 30
  else 31.

Definition days_before_month (y m : Z) : Z :=
  fold_right Z.add 0
    (map (days_in_month y) (map Z.of_nat (seq 1 (Z.to_nat (m - 1))))).

Definition ymd2ord (y m d : Z) : Z :=
  days_before_year y + days_before_month y m + d.

Definition datetime (y m d : Z) : Z := ymd2ord y m d * 86400000000.

End Py.

Import Py.

(** ** Raster references and collections *)

(** What the notebook reads of a raster produced by a workflow run: the
    locator of its file, its acquisition time range and its tile. *)
Record Raster : Type := mkRaster {
  raster_asset_url : string;
  time_range : Z * Z;
  tile_id : string
}.

Definition start_time (x : Raster) : Z := fst (time_range x).

(** ** Temporal aligner *)

(** [sorted(rasters, key=lambda x: x.time_range[0])] *)
Definition sort_by_time (collection : list Raster) : list Raster :=
  sorted start_time collection.

(** [lambda x: abs(t - x.time_range[0])] *)
Definition time_distance (reference_time : Z) (x : Raster) : Z :=
  Z.abs (reference_time - start_time x).

(** [sorted(collection, key=lambda x: abs(t - x.time_range[0]))[0]] *)
Definition nearest (reference_time : Z) (collection : list Raster)
  : result Raster :=
  getitem (sorted (time_distance reference_time) collection) 0.

(** The loop body of the inpainting cells: the SpaceEye raster nearest to the
    start of the Sentinel-2 raster [s2]. *)
Definition se_raster (s2 : Raster) (rasters : list Raster) : result Raster :=
  nearest (start_time s2) rasters.

Definition on_day (y m d : Z) (name : string) : Raster :=
  mkRaster name (datetime y m d, datetime y m d) "21MYN".

Definition june_2018 : list Raster :=
  [ on_day 2018 6 1 "a"; on_day 2018 6 6 "b"; on_day 2018 6 11 "c" ].

(** ** Cloud-ratio classifier *)

(** The value of a numpy float computation: a number, or [nan] (the mean of
    an array with no element).  Every comparison with [nan] is false. *)
Inductive float : Type :=
| Finite (q : Q)
| NaN.

Definition float_lt (x y : float) : bool :=
  match x, y with
  | Finite p, Finite q => negb (Qle_bool q p)
  | _, _ => false
  end.

Definition float_ge (x y : float) : bool :=
  match x, y with
  | Finite p, Finite q => Qle_bool q p
  | _, _ => false
  end.

Definition float_eq (x y : float) : bool :=
  match x, y with
  | Finite p, Finite q => Qeq_bool p q
  | _, _ => false
  end.

(** The order of the finite values; [nan] is related to nothing. *)
Definition lt_float (x y : float) : Prop :=
  match x, y with
  | Finite p, Finite q => (p < q)%Q
  | _, _ => False
  end.

Definition ge_float (x y : float) : Prop :=
  match x, y with
  | Finite p, Finite q => (q <= p)%Q
  | _, _ => False
  end.

Definition eq_float (x y : float) : Prop :=
  match x, y with
  | Finite p, Finite q => (p == q)%Q
  | _, _ => False
  end.

(** An array read from a raster, indexed by band, row and column. *)
Definition ndarray := list (list (list Q)).

Definition ravel (ar : ndarray) : list Q := concat (concat ar).

Definition total (values : list Q) : Q := fold_right Qplus 0%Q values.

Definition pixel_count (values : list Q) : Q :=
  inject_Z (Z.of_nat (List.length values)).

(** *** Binary64 arithmetic

    numpy computes the mean in IEEE 754 binary64.  A finite binary64 number
    is the rational it denotes; every operation returns the exact result
    rounded to the nearest number of 53 significant bits (ties to the even
    one, gradual underflow below [2^-1022]), or an infinity when the rounded
    result reaches [2^1024].  The sign of zero is not represented. *)
Inductive float64 : Type :=
| Number (q : Q)
| Infinity (negative : bool)
| NotANumber.

Definition pow2 (e : Z) : Q :=
  if 0 <=? e then inject_Z (2 ^ e) else (1 / inject_Z (2 ^ (- e)))%Q.

(** [floor (log2 a)] for a positive rational. *)
Definition ilog2 (a : Q) : Z :=
  let k := Z.log2 (Qnum a) - Z.log2 (Zpos (Qden a)) in
  if Qle_bool (pow2 k) a then k else k - 1.

Definition round_half_even (x : Q) : Z :=
  let f := Qfloor x in
  match (x - inject_Z f ?= 1 # 2)%Q with
  | Lt => f
  | Gt => f + 1
  | Eq => if Z.even f then f else f + 1
  end.

Definition fl_pos (a : Q) : Q :=
  let e := Z.max (-1074) (ilog2 a - 52) in
  (inject_Z (round_half_even (a / pow2 e)) * pow2 e)%Q.

(** The rounding of a rational to binary64, without bound on the
    exponent. *)
Definition fl (q : Q) : Q :=
  let a := Qred q in
  Qred (match (a ?= 0)%Q with
        | Eq => 0
        | Gt => fl_pos a
        | Lt => - fl_pos (- a)
        end)%Q.

Definition overflow (r : Q) : float64 :=
  if Qle_bool (pow2 1024) r then Infinity false
  else if Qle_bool r (- pow2 1024) then Infinity true
  else Number r.

(** The binary64 number a value is stored as. *)
Definition store (x : float64) : float64 :=
  match x with
  | Number q => overflow (fl q)
  | _ => x
  end.

Definition fadd (x y : float64) : float64 :=
  match x, y with
  | Number p, Number q => overflow (fl (p + q))
  | NotANumber, _ | _, NotANumber => NotANumber
  | Infinity s, Infinity s' => if Bool.eqb s s' then Infinity s else NotANumber
  | Infinity s, Number _ | Number _, Infinity s => Infinity s
  end.

(** The division of a sum by a positive count of elements, itself converted
    to binary64. *)
Definition fdiv_count (x : float64) (count : Z) : float64 :=
  match x with
  | Number p => Number (fl (p / fl (inject_Z count)))
  | _ => x
  end.

(** *** The sum of numpy

    [np.add.reduce] on a contiguous binary64 array adds up with
    [pairwise_sum]: fewer than 8 elements one after the other, up to 128
    elements in 8 interleaved accumulators that are then added in pairs, more
    by halves cut at a multiple of 8. *)
Definition sum8 (r : list float64) : float64 :=
  match r with
  | [r0; r1; r2; r3; r4; r5; r6; r7] =>
      fadd (fadd (fadd r0 r1) (fadd r2 r3)) (fadd (fadd r4 r5) (fadd r6 r7))
  | _ => NotANumber
  end.

(** [r[j] += a[i + j]] for the accumulators and a block. *)
Fixpoint add_lanes (r block : list float64) : list float64 :=
  match r, block with
  | x :: r', c :: block' => fadd x c :: add_lanes r' block'
  | _, _ => r
  end.

(** The accumulators after the whole blocks of 8, and the elements left. *)
Fixpoint unrolled (r body : list float64) : list float64 * list float64 :=
  match body with
  | c0 :: c1 :: c2 :: c3 :: c4 :: c5 :: c6 :: c7 :: rest =>
      unrolled (add_lanes r [c0; c1; c2; c3; c4; c5; c6; c7]) rest
  | _ => (r, body)
  end.

Definition block_sum (a : list float64) : float64 :=
  let (r, rest) := unrolled (firstn 8 a) (skipn 8 a) in
  fold_left fadd rest (sum8 r).

Fixpoint pairwise_sum (fuel : nat) (a : list float64) : float64 :=
  let n := List.length a in
  if (n <? 8)%nat then fold_left fadd a (Number 0)
  else if (n <=? 128)%nat then block_sum a
  else match fuel with
       | O => NotANumber
       | S fuel' =>
           let n2 := (n / 2 - (n / 2) mod 8)%nat in
           fadd (pairwise_sum fuel' (firstn n2 a))
                (pairwise_sum fuel' (skipn n2 a))
       end.

(** [a.sum()]: the identity of the addition plus the pairwise sum of the
    elements. *)
Definition np_sum (a : list float64) : float64 :=
  fadd (Number 0) (pairwise_sum (List.length a) a).

(** *** The mean of a mask

    The array a mask is read into, indexed by band, row and column: a pixel
    holds a binary64 value or is masked out ([None]), as in a
    [numpy.ma.MaskedArray]; an array read without mask has no masked
    pixel. *)
Definition MaskedArray := list (list (list (option float64))).

Definition pixels_of (ar : MaskedArray) : list (option float64) :=
  concat (concat ar).

Definition is_unmasked (p : option float64) : bool :=
  match p with
  | Some _ => true
  | None => false
  end.

(** [a.filled(0)] on one pixel. *)
Definition filled0 (p : option float64) : float64 :=
  match p with
  | Some v => store v
  | None => Number 0
  end.

Definition count_unmasked (pixels : list (option float64)) : Z :=
  Z.of_nat (List.length (filter is_unmasked pixels)).

(** [ar.mean()] over all the elements of a masked array whose values numpy
    averages in binary64 (booleans, integers, binary64 numbers).  The array
    read with [filled=False] carries a mask, and [numpy.ma] computes
    [dsum * 1. / cnt]: the sum of the array with its masked pixels filled
    with 0, divided by the number of pixels that are not masked.  When that
    number is 0, the result is the constant [numpy.ma.masked] ([None]), with
    which every comparison is false. *)
Definition mean (ar : MaskedArray) : option float64 :=
  let pixels := pixels_of ar in
  if count_unmasked pixels =? 0 then None
  else Some (fdiv_count (np_sum (map filled0 pixels)) (count_unmasked pixels)).

(** [read_raster(c, geom, filled=False)[0].mean()] for a mask array already
    read. *)
Definition cloud_ratio (mask_array : MaskedArray) : option float64 :=
  mean mask_array.

(** An array of exact values seen as an array without masked pixel. *)
Definition as_masked (ar : ndarray) : MaskedArray :=
  map (map (map (fun v => Some (Number v)))) ar.

(** The exact values of the pixels that are not masked. *)
Fixpoint unmasked_values (pixels : list (option float64)) : list Q :=
  match pixels with
  | [] => []
  | Some (Number q) :: pixels' => q :: unmasked_values pixels'
  | _ :: pixels' => unmasked_values pixels'
  end.

(** A pixel of a boolean mask: masked out, or of value 0 or 1. *)
Definition binary_pixel (p : option float64) : Prop :=
  match p with
  | None => True
  | Some (Number q) => (q == 0 \/ q == 1)%Q
  | Some _ => False
  end.

Definition pixel_has_value (v : Q) (p : option float64) : Prop :=
  match p with
  | Some (Number q) => (q == v)%Q
  | None => True
  | Some _ => False
  end.

(** The contribution of a pixel of a boolean mask to the sum. *)
Definition indicator (p : option float64) : Z :=
  match p with
  | Some (Number q) => if Qeq_bool q 1 then 1 else 0
  | _ => 0
  end.

Definition ints (zs : list Z) : list float64 :=
  map (fun z => Number (inject_Z z)) zs.

Definition zsum (zs : list Z) : Z := fold_right Z.add 0 zs.

(** The number of pixels of value 1 among the pixels of a boolean mask. *)
Definition cloudy_count (pixels : list (option float64)) : Z :=
  zsum (map indicator pixels).

(** The shape [(bands, rows, cols)] of a masked array. *)
Definition masked_shape (ar : MaskedArray) (bands rows cols : nat) : Prop :=
  List.length ar = bands /\
  Forall (fun band =>
            List.length band = rows /\
            Forall (fun row => List.length row = cols) band) ar.

(** The decimal literals of the examples, as binary64 numbers. *)
Definition f64 (q : Q) : option float64 := Some (store (Number q)).

(** [cloud_thr = 0.1] *)
Definition cloud_thr : float := Finite (1 # 10).

(** [[s2 for s2, c in zip(rasters, cloud_ratio) if c < cloud_thr]] *)
Definition cloud_free_rasters (rasters : list Raster) (ratios : list float)
  (thr : float) : list Raster :=
  map fst (filter (fun p => float_lt (snd p) thr) (combine rasters ratios)).

(** [[s2 for s2, c in zip(rasters, cloud_ratio) if c >= cloud_thr]] *)
Definition cloudy_rasters (rasters : list Raster) (ratios : list float)
  (thr : float) : list Raster :=
  map fst (filter (fun p => float_ge (snd p) thr) (combine rasters ratios)).

(** The list an acquisition with cloud ratio [ratio] lands in: the cloud-free
    one ([usable]), the cloudy one ([unusable]), or neither. *)
Inductive label : Type := usable | unusable.

Definition classify (ratio threshold : float) : option label :=
  if float_lt ratio threshold then Some usable
  else if float_ge ratio threshold then Some unusable
  else None.

Definition is_label (l : label) (c : option label) : bool :=
  match c, l with
  | Some usable, usable | Some unusable, unusable => true
  | _, _ => false
  end.

(** The number of pixels of value 1. *)
Definition cloudy_pixels (values : list Q) : nat :=
  List.length (filter (fun v => Qeq_bool v 1) values).

(** A mask of [rows] rows and [cols] columns in one band whose first [n]
    pixels, row by row, have value 1 and the others value 0. *)
Definition mask_row (cols : nat) (cloudy : nat) : list Q :=
  repeat 1%Q (Nat.min cloudy cols) ++ repeat 0%Q (cols - Nat.min cloudy cols).

Fixpoint mask_rows (rows cols : nat) (cloudy : nat) : list (list Q) :=
  match rows with
  | O => []
  | S rows' => mask_row cols cloudy :: mask_rows rows' cols (cloudy - cols)
  end.

Definition block_mask (rows cols cloudy : nat) : ndarray :=
  [ mask_rows rows cols cloudy ].

(** ** Geometry and pixel grid *)

(** Modelled from the spec: the affine transform of a raster
    ([rasterio]'s [src.transform], not defined in the notebook), the linear
    mapping between column/row indices and CRS coordinates:
    [x = a*col + b*row + c], [y = d*col + e*row + f]. *)
Record Affine : Type := mkAffine {
  af_a : Q; af_b : Q; af_c : Q;
  af_d : Q; af_e : Q; af_f : Q
}.

Definition apply_affine (t : Affine) (p : Q * Q) : Q * Q :=
  let (col, row) := p in
  (af_a t * col + af_b t * row + af_c t,
   af_d t * col + af_e t * row + af_f t)%Q.

Definition determinant (t : Affine) : Q :=
  (af_a t * af_e t - af_b t * af_d t)%Q.

(** The inverse transform, from CRS coordinates to fractional pixel
    coordinates. *)
Definition invert (t : Affine) : Affine :=
  let idet := (/ determinant t)%Q in
  let ra := (af_e t * idet)%Q in
  let rb := (- af_b t * idet)%Q in
  let rd := (- af_d t * idet)%Q in
  let re := (af_a t * idet)%Q in
  mkAffine ra rb (- af_c t * ra - af_f t * rb)%Q
           rd re (- af_c t * rd - af_f t * re)%Q.

(** A transform without rotation or shear terms and with non-zero pixel
    sizes, as the north-up Sentinel tiles have. *)
Definition axis_aligned (t : Affine) : Prop :=
  (af_b t == 0 /\ af_d t == 0 /\ ~ af_a t == 0 /\ ~ af_e t == 0)%Q.

(** Modelled from the spec: the Geometry of the data model ([shapely]
    objects in the notebook), in the coordinates of some CRS: a point, a box,
    or a polygon given by the vertices of its ring (at least one). *)
Inductive Geometry : Type :=
| Point (x y : Q)
| Box (minx miny maxx maxy : Q)
| Polygon (v : Q * Q) (vs : list (Q * Q)).

Record Envelope : Type := mkEnvelope {
  minx : Q; miny : Q; maxx : Q; maxy : Q
}.

Definition min4 (p q r s : Q) : Q := Qmin (Qmin p q) (Qmin r s).
Definition max4 (p q r s : Q) : Q := Qmax (Qmax p q) (Qmax r s).

(** Modelled from the spec: the bounding envelope of a geometry in CRS units
    ([proj_geom.bounds] in the notebook, computed by [shapely]). *)
Definition bounds (g : Geometry) : Envelope :=
  match g with
  | Point x y => mkEnvelope x y x y
  | Box x0 y0 x1 y1 => mkEnvelope (Qmin x0 x1) (Qmin y0 y1) (Qmax x0 x1) (Qmax y0 y1)
  | Polygon v vs =>
      fold_left
        (fun env p =>
           mkEnvelope (Qmin (minx env) (fst p)) (Qmin (miny env) (snd p))
                      (Qmax (maxx env) (fst p)) (Qmax (maxy env) (snd p)))
        vs (mkEnvelope (fst v) (snd v) (fst v) (snd v))
  end.

(** Modelled from the spec: the Pixel Window of the data model ([rasterio]'s
    [Window] in the notebook), an axis-aligned integer rectangle of pixels. *)
Record PixelWindow : Type := mkWindow {
  row_start : Z; row_stop : Z;
  col_start : Z; col_stop : Z
}.

Definition window_rows (w : PixelWindow) : Z := row_stop w - row_start w.
Definition window_cols (w : PixelWindow) : Z := col_stop w - col_start w.

Record RasterSize : Type := mkSize { height : Z; width : Z }.

(** The invariant of a pixel window within a grid of the given size. *)
Definition valid_window (w : PixelWindow) (size : RasterSize) : Prop :=
  0 <= row_start w /\ row_start w < row_stop w /\ row_stop w <= height size /\
  0 <= col_start w /\ col_start w < col_stop w /\ col_stop w <= width size.

Definition valid_windowb (w : PixelWindow) (size : RasterSize) : bool :=
  (0 <=? row_start w) && (row_start w <? row_stop w) &&
  (row_stop w <=? height size) &&
  (0 <=? col_start w) && (col_start w <? col_stop w) &&
  (col_stop w <=? width size).

(** ** Window resolver *)

(** Modelled from the spec: the envelope of a geometry in fractional pixel
    coordinates.  Its four corners go through the inverse transform, and the
    extreme columns and rows are kept. *)
Record PixelBounds : Type := mkPixelBounds {
  col_lo : Q; row_lo : Q; col_hi : Q; row_hi : Q
}.

Definition pixel_bounds (env : Envelope) (t : Affine) : PixelBounds :=
  let inv := invert t in
  let p1 := apply_affine inv (minx env, miny env) in
  let p2 := apply_affine inv (minx env, maxy env) in
  let p3 := apply_affine inv (maxx env, miny env) in
  let p4 := apply_affine inv (maxx env, maxy env) in
  mkPixelBounds (min4 (fst p1) (fst p2) (fst p3) (fst p4))
                (min4 (snd p1) (snd p2) (snd p3) (snd p4))
                (max4 (fst p1) (fst p2) (fst p3) (fst p4))
                (max4 (snd p1) (snd p2) (snd p3) (snd p4)).

(** Modelled from the spec: the outward rounding of the resolver, floor on
    the lower bounds and ceiling on the upper ones. *)
Definition round_outward (pb : PixelBounds) : PixelWindow :=
  mkWindow (Qfloor (row_lo pb)) (Qceiling (row_hi pb))
           (Qfloor (col_lo pb)) (Qceiling (col_hi pb)).

(** Modelled from the spec: the clamping of the rounded rectangle to the
    raster's dimensions. *)
Definition clamp (w : PixelWindow) (size : RasterSize) : PixelWindow :=
  mkWindow (Z.max 0 (row_start w)) (Z.min (height size) (row_stop w))
           (Z.max 0 (col_start w)) (Z.min (width size) (col_stop w)).

Definition is_empty (w : PixelWindow) : bool :=
  (row_stop w <=? row_start w) || (col_stop w <=? col_start w).

(** Modelled from the spec: [resolve_window], which the notebook obtains as
    [geometry_window(src, [proj_geom])] from [rasterio.mask]; the body of that
    function is not in the notebook.  Envelope of the geometry in CRS units,
    inverse affine transform, outward rounding, clamping to the raster's
    dimensions, and [OutOfBounds] when the clamped window is empty. *)
Definition resolve_window (projected_geometry : Geometry)
  (raster_transform : Affine) (raster_size : RasterSize) : result PixelWindow :=
  let pb := pixel_bounds (bounds projected_geometry) raster_transform in
  let w := clamp (round_outward pb) raster_size in
  if is_empty w then Raise "OutOfBounds"%string else Ok w.

(** Modelled from the spec: the CRS envelope a pixel window corresponds to,
    the bounds of the images of its four corners under the raster's
    transform. *)
Definition window_envelope (w : PixelWindow) (t : Affine) : Geometry :=
  let q1 := apply_affine t (inject_Z (col_start w), inject_Z (row_start w)) in
  let q2 := apply_affine t (inject_Z (col_start w), inject_Z (row_stop w)) in
  let q3 := apply_affine t (inject_Z (col_stop w), inject_Z (row_start w)) in
  let q4 := apply_affine t (inject_Z (col_stop w), inject_Z (row_stop w)) in
  Box (min4 (fst q1) (fst q2) (fst q3) (fst q4))
      (min4 (snd q1) (snd q2) (snd q3) (snd q4))
      (max4 (fst q1) (fst q2) (fst q3) (fst q4))
      (max4 (snd q1) (snd q2) (snd q3) (snd q4)).

(** The pixel of column [c] and row [r] covers the unit square
    [[c, c+1] x [r, r+1]] of pixel coordinates; it overlaps the pixel bounds
    when the two rectangles share interior points. *)
Definition pixel_overlaps (c r : Z) (pb : PixelBounds) : Prop :=
  (inject_Z c < col_hi pb /\ col_lo pb < inject_Z (c + 1) /\
   inject_Z r < row_hi pb /\ row_lo pb < inject_Z (r + 1))%Q.

Definition in_window (c r : Z) (w : PixelWindow) : Prop :=
  col_start w <= c < col_stop w /\ row_start w <= r < row_stop w.

Definition in_grid (c r : Z) (size : RasterSize) : Prop :=
  0 <= c < width size /\ 0 <= r < height size.

(** The window, as a rectangle of pixel coordinates, contains the pixel
    bounds. *)
Definition window_contains (w : PixelWindow) (pb : PixelBounds) : Prop :=
  (inject_Z (col_start w) <= col_lo pb /\ col_hi pb <= inject_Z (col_stop w) /\
   inject_Z (row_start w) <= row_lo pb /\ row_hi pb <= inject_Z (row_stop w))%Q.

(** The pixel bounds lie within the grid of the raster. *)
Definition bounds_in_grid (pb : PixelBounds) (size : RasterSize) : Prop :=
  (0 <= col_lo pb /\ col_hi pb <= inject_Z (width size) /\
   0 <= row_lo pb /\ row_hi pb <= inject_Z (height size))%Q.

(** The pixel bounds share no interior point with the grid of the raster. *)
Definition disjoint_from_grid (pb : PixelBounds) (size : RasterSize) : Prop :=
  (col_hi pb <= 0 \/ inject_Z (width size) <= col_lo pb \/
   row_hi pb <= 0 \/ inject_Z (height size) <= row_lo pb)%Q.

(** A point of the CRS lies in an envelope. *)
Definition in_envelope (x y : Q) (env : Envelope) : Prop :=
  (minx env <= x /\ x <= maxx env /\ miny env <= y /\ y <= maxy env)%Q.

(** A point in fractional pixel coordinates lies in pixel bounds. *)
Definition in_pixel_bounds (p : Q * Q) (pb : PixelBounds) : Prop :=
  (col_lo pb <= fst p /\ fst p <= col_hi pb /\
   row_lo pb <= snd p /\ snd p <= row_hi pb)%Q.

(** The envelope intersects the grid of the raster: some point of the
    envelope has its pixel coordinates within the rectangle of the grid,
    border included. *)
Definition envelope_meets_grid (env : Envelope) (t : Affine)
  (size : RasterSize) : Prop :=
  exists x y : Q,
    in_envelope x y env /\
    (0 <= fst (apply_affine (invert t) (x, y)) /\
     fst (apply_affine (invert t) (x, y)) <= inject_Z (width size) /\
     0 <= snd (apply_affine (invert t) (x, y)) /\
     snd (apply_affine (invert t) (x, y)) <= inject_Z (height size))%Q.

(** The raster of the end-to-end scenario: a grid of 11000 x 11000 pixels of
    10 metres, north up, with its upper left corner at (499980, 10000000). *)
Definition scenario_transform : Affine :=
  mkAffine 10 0 499980 0 (-10) 10000000.

Definition scenario_size : RasterSize := mkSize 11000 11000.

(** A grid turned by 45 degrees: [x = col - row], [y = col + row]. *)
Definition rotated_transform : Affine := mkAffine 1 (-1) 0 1 1 0.

(** ** Windowed raster reader *)

(** Modelled from the spec: the storage contract of a raster file (open by
    locator, read a window, get the affine transform and the nodata value);
    the files behind [raster_asset.url] are opened with [rasterio.open]. *)
Record RasterFile : Type := mkFile {
  count : nat;
  size : RasterSize;
  transform : Affine;
  nodata : option Q;
  pixel : nat -> Z -> Z -> Q
}.

Definition Storage := string -> option RasterFile.

Definition zrange (lo hi : Z) : list Z :=
  map (fun i => lo + Z.of_nat i) (seq 0 (Z.to_nat (hi - lo))).

Definition fill_value : Q := 0%Q.

Definition is_nodata (src : RasterFile) (v : Q) : bool :=
  match nodata src with
  | Some nd => Qeq_bool v nd
  | None => false
  end.

Definition read_pixel (src : RasterFile) (fill_invalid : bool)
  (band : nat) (r c : Z) : Q :=
  let v := pixel src band r c in
  if fill_invalid && is_nodata src v then fill_value else v.

(** Modelled from the spec: the values of exactly the requested window,
    across all bands. *)
Definition read_window (src : RasterFile) (w : PixelWindow)
  (fill_invalid : bool) : ndarray :=
  map (fun band =>
         map (fun r =>
                map (fun c => read_pixel src fill_invalid band r c)
                    (zrange (col_start w) (col_stop w)))
             (zrange (row_start w) (row_stop w)))
      (seq 0 (count src)).

(** Modelled from the spec: the transform describing the sub-window's own
    geolocation, the raster's transform after a translation by the window's
    offsets. *)
Definition window_transform (w : PixelWindow) (t : Affine) : Affine :=
  let origin :=
    apply_affine t (inject_Z (col_start w), inject_Z (row_start w)) in
  mkAffine (af_a t) (af_b t) (fst origin) (af_d t) (af_e t) (snd origin).

(** Modelled from the spec: [read(raster_ref, window, fill_invalid)], the
    notebook's [read_raster] imported from [vibe_notebook.raster], whose body
    is not in the notebook.  The file is opened by its locator ([IOError]
    when it cannot be), a window that breaks the invariant is rejected with
    [WindowError], and exactly the window is read across all bands. *)
Definition read (storage : Storage) (raster_ref : Raster) (w : PixelWindow)
  (fill_invalid : bool) : result (ndarray * Affine) :=
  match storage (raster_asset_url raster_ref) with
  | None => Raise "IOError"%string
  | Some src =>
      if valid_windowb w (size src)
      then Ok (read_window src w fill_invalid,
               window_transform w (transform src))
      else Raise "WindowError"%string
  end.

(** Modelled from the spec: the entry point of [read] by geometry
    ([read_raster(s2, projected_geometry=focus_geom)] in the notebook).  The
    window is resolved with the raster's own transform and size, and a failed
    resolution aborts the read. *)
Definition read_geometry (storage : Storage) (raster_ref : Raster)
  (projected_geometry : Geometry) (fill_invalid : bool)
  : result (ndarray * Affine) :=
  match storage (raster_asset_url raster_ref) with
  | None => Raise "IOError"%string
  | Some src =>
      bind (resolve_window projected_geometry (transform src) (size src))
           (fun w => read storage raster_ref w fill_invalid)
  end.

(** The shape [(bands, rows, cols)] of an array. *)
Definition has_shape (ar : ndarray) (bands rows cols : nat) : Prop :=
  List.length ar = bands /\
  Forall (fun band =>
            List.length band = rows /\
            Forall (fun row => List.length row = cols) band) ar.

(** A file of four bands on the grid of the scenario, stored under one
    locator, and a raster reference to it. *)
Definition scenario_file : RasterFile :=
  mkFile 4 scenario_size scenario_transform (Some 0%Q)
         (fun band r c => inject_Z (Z.of_nat band + r + c)).

Definition scenario_storage : Storage :=
  fun url => if String.eqb url "s2/21MYN.tif" then Some scenario_file else None.

Definition scenario_raster : Raster :=
  mkRaster "s2/21MYN.tif" (datetime 2018 6 1, datetime 2018 6 1) "21MYN".

(** * The plotting cells *)

(** ** Python sequences *)

(** [range(start, stop, step)] for a positive [step]. *)
Definition py_range (start stop step : Z) : list Z :=
  map (fun k => start + step * Z.of_nat k)
      (seq 0 (Z.to_nat ((stop - start + step - 1) / step))).

(** The elements of [l] from the one at offset [skip], every [step]-th. *)
Fixpoint stride_from {A : Type} (step skip : nat) (l : list A) : list A :=
  match l with
  | [] => []
  | x :: l' =>
      match skip with
      | O => x :: stride_from step (step - 1) l'
      | S skip' => stride_from step skip' l'
      end
  end.

(** [l[::step]] for a positive [step]. *)
Definition slice_step {A : Type} (step : nat) (l : list A) : list A :=
  stride_from step 0 l.

(** [enumerate(l)] *)
Definition enumerate {A : Type} (l : list A) : list (Z * A) :=
  combine (map Z.of_nat (seq 0 (List.length l))) l.

(** [min(l)]: [ValueError] on an empty sequence. *)
Definition py_min (l : list Z) : result Z :=
  match l with
  | [] => Raise "ValueError"%string
  | x :: l' => Ok (fold_left Z.min l' x)
  end.

(** [math.ceil(n / d)] of the true division of two integers. *)
Definition math_ceil_div (n d : Z) : Z := Qceiling (inject_Z n / inject_Z d).

(** A [for] loop whose body may raise: the results of the iterations, up to
    the first error. *)
Fixpoint for_each {A B : Type} (body : A -> result B) (l : list A)
  : result (list B) :=
  match l with
  | [] => Ok []
  | x :: l' =>
      bind (body x) (fun y => bind (for_each body l') (fun ys => Ok (y :: ys)))
  end.

(** [plt.subplot(nrows, ncols, index)]: the index counts the cells of the
    grid from 1, and one outside the grid is a [ValueError]. *)
Definition subplot (nrows ncols index : Z) : result unit :=
  if (1 <=? index) && (index <=? nrows * ncols) then Ok tt
  else Raise "ValueError"%string.

(** ** The tile and the outline of the region *)

(** [win.toranges()]: the row range, then the column range. *)
Definition toranges (win : PixelWindow) : list (list Z) :=
  [[row_start win; row_stop win]; [col_start win; col_stop win]].

(** [boxx, boxy = win.toranges()[::-1]], then
    [boxx = boxx + boxx[::-1] + boxx[:1]] and
    [boxy = tuple(b for b in boxy for _ in range(2)) + boxy[:1]]. *)
Definition window_outline (win : PixelWindow) : list Z * list Z :=
  let ranges := rev (toranges win) in
  let boxx := nth 0 ranges [] in
  let boxy := nth 1 ranges [] in
  ((boxx ++ rev boxx) ++ firstn 1 boxx,
   flat_map (fun b => repeat b 2) boxy ++ firstn 1 boxy).

(** [[b / 10 for b in boxx]], [[b / 10 for b in boxy]]: the outline in the
    coordinates of the subsampled image. *)
Definition outline_plot (win : PixelWindow) : list Q * list Q :=
  let (boxx, boxy) := window_outline win in
  (map (fun b => inject_Z b / 10)%Q boxx, map (fun b => inject_Z b / 10)%Q boxy).

(** [ar[:, ::10, ::10]] *)
Definition subsample (ar : ndarray) : ndarray :=
  map (fun band => map (slice_step 10) (slice_step 10 band)) ar.

(** [ar[band][row][col]] for indices within the array. *)
Definition pixel_at (ar : ndarray) (band row col : nat) : option Q :=
  match nth_error ar band with
  | Some rows =>
      match nth_error rows row with
      | Some values => nth_error values col
      | None => None
      end
  | None => None
  end.

(** ** Cloud-free and cloudy acquisitions *)

(** [l1] is [l2] with some elements left out, the others in their order. *)
Inductive subsequence {A : Type} : list A -> list A -> Prop :=
| subsequence_nil : subsequence [] []
| subsequence_keep (x : A) (l1 l2 : list A) :
    subsequence l1 l2 -> subsequence (x :: l1) (x :: l2)
| subsequence_drop (x : A) (l1 l2 : list A) :
    subsequence l1 l2 -> subsequence l1 (x :: l2).

Definition is_finite (x : float) : bool :=
  match x with
  | Finite _ => true
  | NaN => false
  end.

(** ** Grids of images *)

(** The cells below are followed through their loops, their indexing, their
    reads and their [plt.subplot] calls; the calls that only draw
    ([plt.figure], [plt.imshow], [plt.title], [plt.axis], [lw_plot]) are left
    out. *)

Section Plots.
(** The notebook's [read_raster], applied to a raster and, when it is given
    one, to the geometry of interest; its body is not in the notebook. *)
Variable read_raster : Raster -> option Geometry -> result ndarray.
Variable geom : Geometry.

(** The grids of the cloud-cover and Sentinel cells: [H = math.ceil(len(rasters)
    / per_row)] rows of [N] columns, and for each raster
    [plt.subplot(H, N, i + 1)] and the read of the raster. *)
Definition plot_grid (N per_row : Z) (rasters : list Raster)
  : result (list (Z * Raster)) :=
  let H := math_ceil_div (Z.of_nat (List.length rasters)) per_row in
  for_each
    (fun ir : Z * Raster =>
       let (i, r) := ir in
       bind (subplot H N (i + 1)) (fun _ =>
       bind (read_raster r (Some geom)) (fun _ =>
       Ok (i + 1, r))))
    (enumerate rasters).

(** [N = 6], [S = 4], [H = math.ceil(len(cloud_free_rasters) / S)] *)
Definition cloud_grid (rasters : list Raster) : result (list (Z * Raster)) :=
  plot_grid 6 4 rasters.

(** [N = 6], [S = 3], [H = math.ceil(len(s1_rasters) / N)] *)
Definition sentinel_grid (rasters : list Raster) : result (list (Z * Raster)) :=
  plot_grid 6 6 rasters.

(** The iterations of the available-imagery cell:
    [for i in range(0, m, 3): for j, r in enumerate(runs)]. *)
Definition imagery_iterations (runs : list (list Raster)) (m : Z)
  : list (Z * list Raster) :=
  flat_map (fun i => map (fun r => (i, r)) runs) (py_range 0 m 3).

(** The body of the available-imagery cell, with the counter [plot_idx] it
    increments: [s2 = r.output["raster"][i]], the read of [s2], and
    [plt.subplot(6, 5, plot_idx)]. *)
Fixpoint imagery_loop (iterations : list (Z * list Raster)) (plot_idx : Z)
  : result (list (Z * Raster)) :=
  match iterations with
  | [] => Ok []
  | (i, r) :: rest =>
      bind (getitem r i) (fun s2 =>
      bind (read_raster s2 (Some geom)) (fun _ =>
      bind (subplot 6 5 plot_idx) (fun _ =>
      bind (imagery_loop rest (plot_idx + 1)) (fun panels =>
      Ok ((plot_idx, s2) :: panels)))))
  end.

(** [plot_idx = 1], then the loops over
    [range(0, min([len(r.output["raster"]) for r in runs]), 3)] and the
    runs. *)
Definition available_imagery (runs : list (list Raster))
  : result (list (Z * Raster)) :=
  bind (py_min (map (fun r => Z.of_nat (List.length r)) runs)) (fun m =>
  imagery_loop (imagery_iterations runs m) 1).

(** ** Daily imagery *)

(** What [plt.imshow] is given: the image of an array with a choice of
    bands ([s2_to_img(ar, rgb_idx=rgb_idx)]), or [np.zeros_like] of an
    image. *)
Inductive Image : Type :=
| Rendered (ar : ndarray) (rgb_idx : list Z)
| ZerosLike (img : Image).

(** The two names of the kernel the cell reads before it may have bound
    them. *)
Record Kernel : Type := mkKernel {
  match_ar : option Image;
  no_data : option Image
}.

Definition lookup_name (v : option Image) : result Image :=
  match v with
  | Some img => Ok img
  | None => Raise "NameError"%string
  end.

(** [datetime.date()] and [date(y, m, d)], as day ordinals. *)
Definition date_of (t : Z) : Z := t / 86400000000.
Definition date (y m d : Z) : Z := ymd2ord y m d.

(** [[rr for rr in r if rr.time_range[0].date() == ref_date]] *)
Definition match_raster (r : list Raster) (ref_date : Z) : list Raster :=
  filter (fun rr => date_of (start_time rr) =? ref_date) r.

(** One pass of the inner loop, for the day [i + 10] of June 2018. *)
Definition daily_panel (r : list Raster) (rgb_idx : list Z) (i : Z)
  (k : Kernel) : result (Image * Kernel) :=
  bind (subplot 1 6 i) (fun _ =>
  let ref_date := date 2018 6 (i + 10) in
  match match_raster r ref_date with
  | first :: _ =>
      bind (read_raster first (Some geom)) (fun ar =>
      let img := Rendered ar rgb_idx in
      Ok (img, mkKernel (Some img) (no_data k)))
  | [] =>
      bind (lookup_name (no_data k)) (fun img => Ok (img, k))
  end).

Fixpoint daily_panels (r : list Raster) (rgb_idx : list Z) (days : list Z)
  (k : Kernel) : result (list Image * Kernel) :=
  match days with
  | [] => Ok ([], k)
  | i :: days' =>
      bind (daily_panel r rgb_idx i k) (fun '(img, k1) =>
      bind (daily_panels r rgb_idx days' k1) (fun '(imgs, k2) =>
      Ok (img :: imgs, k2)))
  end.

(** One figure: [for i in range(1, 7)], then
    [no_data = np.zeros_like(match_ar)]. *)
Definition daily_figure (r : list Raster) (rgb_idx : list Z) (k : Kernel)
  : result (list Image * Kernel) :=
  bind (daily_panels r rgb_idx (py_range 1 7 1) k) (fun '(imgs, k1) =>
  bind (lookup_name (match_ar k1)) (fun img =>
  Ok (imgs, mkKernel (match_ar k1) (Some (ZerosLike img))))).

(** The cell: the SpaceEye rasters with bands [2, 1, 0], then the Sentinel-2
    rasters with bands [3, 2, 1]. *)
Definition daily_imagery (se s2 : list Raster) (k : Kernel)
  : result (list Image * list Image * Kernel) :=
  bind (daily_figure se [2; 1; 0] k) (fun '(imgs1, k1) =>
  bind (daily_figure s2 [3; 2; 1] k1) (fun '(imgs2, k2) =>
  Ok (imgs1, imgs2, k2))).

(** ** Cloud inpainting *)

(** [for s2 in sorted(rasters[::2], key=lambda x: x.time_range[0])]: the
    nearest SpaceEye raster, the read of [s2] on the geometry and the read of
    the whole SpaceEye raster. *)
Definition inpainting (rasters se : list Raster)
  : result (list (Raster * Raster)) :=
  for_each
    (fun s2 =>
       bind (se_raster s2 se) (fun nearest_se =>
       bind (read_raster s2 (Some geom)) (fun _ =>
       bind (read_raster nearest_se None) (fun _ =>
       Ok (s2, nearest_se)))))
    (sorted start_time (slice_step 2 rasters)).

End Plots.

(** ** Time ranges and the focus region *)

(** [time_range = (datetime(2018, 6, 1), datetime(2018, 9, 1))] *)
Definition notebook_time_range : Z * Z :=
  (datetime 2018 6 1, datetime 2018 9 1).

(** [[(datetime(year, 6, 1), datetime(year, 9, 1)) for year in
    range(2018, 2023)]] *)
Definition time_ranges : list (Z * Z) :=
  map (fun year => (datetime year 6 1, datetime year 9 1))
      (py_range 2018 2023 1).

Definition day : Z := 86400000000.

(** [xmin, ymin, xmax, ymax = proj_geom.bounds] and
    [shpg.box(xmin + 3000, ymax - 4000, xmax, ymax)] *)
Definition focus_geom (proj_geom : Geometry) : Geometry :=
  let env := bounds proj_geom in
  Box (minx env + 3000)%Q (maxy env - 4000)%Q (maxx env) (maxy env).

Definition envelope_within (inner outer : Envelope) : Prop :=
  (minx outer <= minx inner /\ maxx inner <= maxx outer /\
   miny outer <= miny inner /\ maxy inner <= maxy outer)%Q.

Definition envelope_width (env : Envelope) : Q := (maxx env - minx env)%Q.
Definition envelope_height (env : Envelope) : Q := (maxy env - miny env)%Q.

Definition window_within (inner outer : PixelWindow) : Prop :=
  row_start outer <= row_start inner /\ row_stop inner <= row_stop outer /\
  col_start outer <= col_start inner /\ col_stop inner <= col_stop outer.

(** Six rasters, one on each day from 11 to 16 June 2018. *)
Definition june_daily : list Raster :=
  map (fun d => on_day 2018 6 d "se") (py_range 11 17 1).

(** ** Proof automation *)

(** Replaces every [Qmin] and [Qmax] by a fresh variable constrained by its
    specification, and leaves the case analysis to linear arithmetic. *)
Ltac qminmax_step term spec :=
  let H := fresh "Hspec" in
  let m := fresh "m" in
  pose proof spec as H;
  set (m := term) in *;
  clearbody m;
  destruct H as [[? ?]|[? ?]].

Ltac qminmax :=
  repeat match goal with
    | |- context [Qmin ?p ?q] => qminmax_step (Qmin p q) (Q.min_spec p q)
    | |- context [Qmax ?p ?q] => qminmax_step (Qmax p q) (Q.max_spec p q)
    | _ : context [Qmin ?p ?q] |- _ =>
        qminmax_step (Qmin p q) (Q.min_spec p q)
    | _ : context [Qmax ?p ?q] |- _ =>
        qminmax_step (Qmax p q) (Q.max_spec p q)
    end.

(** * Properties *)

(** ** The stable sort *)

Section SortedFacts.
Context {A : Type} (key : A -> Z).

Lemma insert_perm (x : A) (l : list A) :
  Permutation (insert key x l) (x :: l).
Proof.
  induction l as [|y l IH]; simpl.
  - apply Permutation_refl.
  - destruct (key x <=? key y).
    + apply Permutation_refl.
    + eapply perm_trans; [apply perm_skip, IH | apply perm_swap].
Qed.

Lemma sorted_perm (l : list A) : Permutation (sorted key l) l.
Proof.
  induction l as [|x l IH]; simpl.
  - constructor.
  - eapply perm_trans; [apply insert_perm | apply perm_skip, IH].
Qed.

Lemma insert_In (x y : A) (l : list A) :
  In y (insert key x l) <-> y = x \/ In y l.
Proof.
  split; intro H.
  - apply (Permutation_in _ (insert_perm x l)) in H.
    destruct H; [left; congruence | now right].
  - apply (Permutation_in _ (Permutation_sym (insert_perm x l))).
    destruct H; [left; congruence | now right].
Qed.

Lemma insert_ordered (x : A) (l : list A) :
  StronglySorted (key_le key) l -> StronglySorted (key_le key) (insert key x l).
Proof.
  induction 1 as [|y l Hl IH Hy]; simpl.
  - repeat constructor.
  - destruct (Z.leb_spec (key x) (key y)) as [Hxy|Hxy].
    + constructor; [now constructor|].
      constructor; [exact Hxy|].
      eapply Forall_impl; [|exact Hy].
      intros z Hz; unfold key_le in *; lia.
    + constructor; [exact IH|].
      apply Forall_forall; intros z Hz.
      apply insert_In in Hz. destruct Hz as [->|Hz].
      * unfold key_le; lia.
      * rewrite Forall_forall in Hy; now apply Hy.
Qed.

Lemma sorted_ordered (l : list A) : StronglySorted (key_le key) (sorted key l).
Proof.
  induction l as [|x l IH]; simpl.
  - constructor.
  - now apply insert_ordered.
Qed.

(** Insertion never moves [x] past an element with the same key. *)
Lemma insert_filter (k : Z) (x : A) (l : list A) :
  filter (has_key key k) (insert key x l) = filter (has_key key k) (x :: l).
Proof.
  induction l as [|y l IH]; [reflexivity|].
  cbn [insert]. destruct (Z.leb_spec (key x) (key y)) as [Hxy|Hxy];
    [reflexivity|].
  cbn [filter] in *. rewrite IH. unfold has_key.
  destruct (Z.eqb_spec (key y) k) as [Hy|Hy];
    destruct (Z.eqb_spec (key x) k) as [Hx|Hx]; try reflexivity; lia.
Qed.

Lemma sorted_stable (k : Z) (l : list A) :
  filter (has_key key k) (sorted key l) = filter (has_key key k) l.
Proof.
  induction l as [|x l IH]; [reflexivity|].
  cbn [sorted]. rewrite insert_filter. cbn [filter]. now rewrite IH.
Qed.

Lemma insert_head (x : A) (l : list A) :
  Forall (key_le key x) l -> insert key x l = x :: l.
Proof.
  destruct 1 as [|y l Hy _]; [reflexivity|].
  simpl. unfold key_le in Hy.
  destruct (Z.leb_spec (key x) (key y)); [reflexivity | lia].
Qed.

Lemma sorted_fixpoint (l : list A) :
  StronglySorted (key_le key) l -> sorted key l = l.
Proof.
  induction 1 as [|x l Hl IH Hx]; [reflexivity|].
  simpl. rewrite IH. now apply insert_head.
Qed.

Lemma sorted_idempotent (l : list A) :
  sorted key (sorted key l) = sorted key l.
Proof. apply sorted_fixpoint, sorted_ordered. Qed.

(** The head of the sorted list is the first element of the input whose
    key is minimal: the elements before it have a strictly larger key. *)
Lemma sorted_head (l : list A) :
  l <> [] ->
  exists pre r post rest,
    l = pre ++ r :: post /\
    sorted key l = r :: rest /\
    (forall x, In x pre -> key r < key x) /\
    (forall x, In x post -> key r <= key x).
Proof.
  induction l as [|x l IH]; [congruence|]. intros _.
  destruct l as [|y l].
  - exists [], x, [], []. repeat split; simpl; intros; contradiction.
  - destruct IH as (pre & r & post & rest & Hl & Hs & Hpre & Hpost);
      [discriminate|].
    cbn [sorted] in *. rewrite Hs. cbn [insert].
    destruct (Z.leb_spec (key x) (key r)) as [Hxr|Hxr].
    + exists [], x, (y :: l), (r :: rest).
      repeat split; [simpl; intros; contradiction|].
      intros z Hz. rewrite Hl in Hz. apply in_app_or in Hz.
      destruct Hz as [Hz|[<-|Hz]].
      * specialize (Hpre _ Hz). lia.
      * exact Hxr.
      * specialize (Hpost _ Hz). lia.
    + exists (x :: pre), r, post, (insert key x rest).
      repeat split.
      * now rewrite Hl.
      * intros z [<-|Hz]; [lia | now apply Hpre].
      * exact Hpost.
Qed.

Lemma filter_has_key_In (x : A) (l : list A) :
  In x l -> In x (filter (has_key key (key x)) l).
Proof.
  intros H. apply filter_In. split; [exact H|].
  unfold has_key. apply Z.eqb_refl.
Qed.

Lemma ordered_head_le (y x : A) (l : list A) :
  StronglySorted (key_le key) (y :: l) -> In x (y :: l) -> key y <= key x.
Proof.
  intros Hs [->|Hx]; [lia|].
  apply StronglySorted_inv in Hs as [_ Hy].
  rewrite Forall_forall in Hy. now apply Hy.
Qed.

(** Two ordered lists that hold, for every key, the same elements in the
    same order are equal. *)
Lemma ordered_lists_equal (l1 l2 : list A) :
  StronglySorted (key_le key) l1 ->
  StronglySorted (key_le key) l2 ->
  (forall k, filter (has_key key k) l1 = filter (has_key key k) l2) ->
  l1 = l2.
Proof.
  intros H1. revert l2.
  induction l1 as [|x l1 IH]; intros l2 H2 Hf.
  - destruct l2 as [|y l2]; [reflexivity|].
    pose proof (filter_has_key_In y (y :: l2) (or_introl eq_refl)) as Hy.
    rewrite <- Hf in Hy. contradiction.
  - destruct l2 as [|y l2].
    + pose proof (filter_has_key_In x (x :: l1) (or_introl eq_refl)) as Hx.
      rewrite Hf in Hx. contradiction.
    + assert (Hxy : key x = key y).
      { pose proof (filter_has_key_In x (x :: l1) (or_introl eq_refl)) as Hx.
        rewrite Hf in Hx. apply filter_In in Hx as [Hx _].
        pose proof (filter_has_key_In y (y :: l2) (or_introl eq_refl)) as Hy.
        rewrite <- Hf in Hy. apply filter_In in Hy as [Hy _].
        pose proof (ordered_head_le _ _ _ H2 Hx).
        pose proof (ordered_head_le _ _ _ H1 Hy). lia. }
      pose proof (Hf (key x)) as Hk. cbn [filter] in Hk. unfold has_key in Hk.
      rewrite Z.eqb_refl in Hk. rewrite <- Hxy, Z.eqb_refl in Hk.
      injection Hk as -> _. f_equal.
      apply StronglySorted_inv in H1 as [H1 _].
      apply StronglySorted_inv in H2 as [H2 _].
      apply IH; [exact H1 | exact H2|].
      intros k. specialize (Hf k). cbn [filter] in Hf.
      destruct (has_key key k y); [now injection Hf | exact Hf].
Qed.

(** Whatever stable sorting algorithm runs, its result is [sorted key l]:
    the ordered list that keeps, for every key, the elements of that key in
    their input order. *)
Lemma sorted_unique (l l' : list A) :
  StronglySorted (key_le key) l' ->
  (forall k, filter (has_key key k) l' = filter (has_key key k) l) ->
  l' = sorted key l.
Proof.
  intros Hs Hf. apply ordered_lists_equal; [exact Hs | apply sorted_ordered|].
  intros k. now rewrite Hf, sorted_stable.
Qed.

Lemma getitem_head (x : A) (l : list A) : getitem (x :: l) 0 = Ok x.
Proof.
  unfold getitem. cbn [List.length].
  replace (0 <? 0) with false by reflexivity.
  replace (Z.of_nat (S (List.length l)) <=? 0) with false; [reflexivity|].
  symmetry. apply Z.leb_gt. lia.
Qed.

End SortedFacts.

(** ** Temporal aligner *)

Lemma nearest_first_minimal (t : Z) (collection : list Raster) :
  collection <> [] ->
  exists pre r post,
    collection = pre ++ r :: post /\
    nearest t collection = Ok r /\
    (forall x, In x pre -> time_distance t r < time_distance t x) /\
    (forall x, In x post -> time_distance t r <= time_distance t x).
Proof.
  intros Hne.
  destruct (sorted_head (time_distance t) collection Hne)
    as (pre & r & post & rest & Hl & Hs & Hpre & Hpost).
  exists pre, r, post. unfold nearest. rewrite Hs, getitem_head. auto.
Qed.

(** C2: on a non-empty collection [nearest] returns an element of the
    collection whose absolute time difference to the reference time is
    minimal over the whole collection; for the start times 2018-06-01,
    2018-06-06 and 2018-06-11 and the reference time 2018-06-08 it returns the
    entry of 2018-06-06. *)
Theorem nearest_minimizes_distance (t : Z) (collection : list Raster) :
  collection <> [] ->
  (exists r,
      nearest t collection = Ok r /\
      In r collection /\
      forall x, In x collection -> time_distance t r <= time_distance t x) /\
  nearest (datetime 2018 6 8) june_2018 = Ok (on_day 2018 6 6 "b").
Proof.
  intros Hne. split; [|reflexivity].
  destruct (nearest_first_minimal t collection Hne)
    as (pre & r & post & Hl & Hn & Hpre & Hpost).
  exists r. split; [exact Hn|]. split.
  - rewrite Hl. apply in_or_app. right. now left.
  - intros x Hx. rewrite Hl in Hx. apply in_app_or in Hx.
    destruct Hx as [Hx|[<-|Hx]].
    + specialize (Hpre _ Hx). lia.
    + lia.
    + now apply Hpost.
Qed.

Lemma nearest_minimizes_distance_witness :
  june_2018 <> [] /\
  exists r,
    nearest (datetime 2018 6 11) june_2018 = Ok r /\
    In r june_2018 /\
    forall x, In x june_2018 ->
              time_distance (datetime 2018 6 11) r
              <= time_distance (datetime 2018 6 11) x.
Proof.
  assert (H : june_2018 <> []) by discriminate.
  split; [exact H|].
  exact (proj1 (nearest_minimizes_distance (datetime 2018 6 11) june_2018 H)).
Defined.

(** C6, as the code has it: on an empty collection the index [[0]] into the
    empty sorted list raises Python's [IndexError], for every reference time;
    nothing catches it, so it reaches the caller. *)
Theorem nearest_empty_raises_IndexError (t : Z) :
  nearest t [] = Raise "IndexError"%string.
Proof. reflexivity. Qed.

(** C6, as stated, fails: the error of the empty collection is not one named
    [EmptyCollection]. *)
Lemma nearest_empty_not_EmptyCollection :
  nearest (datetime 2018 6 8) [] <> Raise "EmptyCollection"%string.
Proof. discriminate. Qed.

(** C9: [sort_by_time] returns a permutation of the collection, ordered by
    start time, in which the rasters of any one start time come in their input
    order (nothing is dropped or merged), and sorting twice gives the same
    sequence as sorting once. *)
Theorem sort_by_time_stable_permutation (collection : list Raster) :
  Permutation (sort_by_time collection) collection /\
  StronglySorted (fun x y => start_time x <= start_time y)
                 (sort_by_time collection) /\
  (forall t : Z,
      filter (fun x => start_time x =? t) (sort_by_time collection)
      = filter (fun x => start_time x =? t) collection) /\
  sort_by_time (sort_by_time collection) = sort_by_time collection.
Proof.
  unfold sort_by_time. repeat split.
  - apply sorted_perm.
  - apply (sorted_ordered start_time).
  - intro t. apply (sorted_stable start_time).
  - apply sorted_idempotent.
Qed.

(** C10: among the entries at the minimal distance from the reference time,
    [nearest] returns the one that comes first in the input: every entry
    before it is strictly farther, every entry after it is at least as
    far. *)
Theorem nearest_tie_earliest (t : Z) (collection : list Raster) :
  collection <> [] ->
  exists pre r post,
    collection = pre ++ r :: post /\
    nearest t collection = Ok r /\
    (forall x, In x pre -> time_distance t r < time_distance t x) /\
    (forall x, In x post -> time_distance t r <= time_distance t x).
Proof. apply nearest_first_minimal. Qed.

(** Two rasters at the same distance on either side of the reference. *)
Lemma nearest_tie_earliest_witness :
  [on_day 2018 6 10 "late"; on_day 2018 6 6 "early"] <> [] /\
  exists pre r post,
    [on_day 2018 6 10 "late"; on_day 2018 6 6 "early"] = pre ++ r :: post /\
    nearest (datetime 2018 6 8)
            [on_day 2018 6 10 "late"; on_day 2018 6 6 "early"] = Ok r /\
    (forall x, In x pre ->
               time_distance (datetime 2018 6 8) r
               < time_distance (datetime 2018 6 8) x) /\
    (forall x, In x post ->
               time_distance (datetime 2018 6 8) r
               <= time_distance (datetime 2018 6 8) x).
Proof.
  assert (H : [on_day 2018 6 10 "late"; on_day 2018 6 6 "early"] <> [])
    by discriminate.
  split; [exact H|].
  exact (nearest_tie_earliest (datetime 2018 6 8) _ H).
Defined.

(** ** Cloud-ratio classifier *)

Section MeanFacts.
Local Open Scope Q_scope.

Lemma total_app (l l' : list Q) : total (l ++ l') == total l + total l'.
Proof.
  induction l as [|v l IH]; simpl.
  - ring.
  - rewrite IH. ring.
Qed.

Lemma total_perm (l l' : list Q) : Permutation l l' -> total l == total l'.
Proof.
  induction 1 as [|v l l' _ IH|v w l|l l' l'' _ IH1 _ IH2]; simpl.
  - reflexivity.
  - now rewrite IH.
  - ring.
  - now rewrite IH1.
Qed.

Lemma pixel_count_cons (v : Q) (l : list Q) :
  pixel_count (v :: l) == 1 + pixel_count l.
Proof.
  unfold pixel_count. cbn [List.length].
  rewrite Nat2Z.inj_succ, <- Z.add_1_l, inject_Z_plus. reflexivity.
Qed.

Lemma pixel_count_nonneg (l : list Q) : 0 <= pixel_count l.
Proof.
  unfold pixel_count. change 0 with (inject_Z 0).
  rewrite <- Zle_Qle. lia.
Qed.

Lemma pixel_count_pos (v : Q) (l : list Q) : 0 < pixel_count (v :: l).
Proof.
  rewrite pixel_count_cons. pose proof (pixel_count_nonneg l). lra.
Qed.

Lemma total_all_zero (l : list Q) :
  Forall (fun v => v == 0) l -> total l == 0.
Proof.
  induction 1 as [|v l Hv _ IH]; simpl.
  - reflexivity.
  - rewrite Hv, IH. ring.
Qed.

Lemma total_all_one (l : list Q) :
  Forall (fun v => v == 1) l -> total l == pixel_count l.
Proof.
  induction 1 as [|v l Hv _ IH].
  - reflexivity.
  - rewrite pixel_count_cons. simpl. rewrite Hv, IH. reflexivity.
Qed.

(** On a mask of zeros and ones the sum counts the pixels of value 1. *)
Lemma total_indicator (l : list Q) :
  Forall (fun v => v == 0 \/ v == 1) l ->
  total l == inject_Z (Z.of_nat (cloudy_pixels l)).
Proof.
  unfold cloudy_pixels.
  induction 1 as [|v l Hv _ IH]; [reflexivity|].
  cbn [total fold_right filter]. fold (total l). rewrite IH.
  destruct (Qeq_bool v 1) eqn:E.
  - apply Qeq_bool_eq in E. cbn [List.length].
    rewrite Nat2Z.inj_succ, <- Z.add_1_l, inject_Z_plus, E. reflexivity.
  - destruct Hv as [Hv|Hv].
    + rewrite Hv. ring.
    + apply Qeq_eq_bool in Hv. congruence.
Qed.

Lemma length_concat_uniform {B : Type} (ls : list (list B)) (n : nat) :
  Forall (fun l => List.length l = n) ls ->
  List.length (concat ls) = (List.length ls * n)%nat.
Proof.
  induction 1 as [|l ls Hl _ IH]; [reflexivity|].
  simpl. rewrite length_app, Hl, IH. reflexivity.
Qed.

Lemma length_ravel (ar : ndarray) (bands rows cols : nat) :
  has_shape ar bands rows cols ->
  List.length (ravel ar) = (bands * rows * cols)%nat.
Proof.
  intros [Hb Hrows]. unfold ravel.
  rewrite (length_concat_uniform (concat ar) cols).
  - rewrite (length_concat_uniform ar rows), Hb; [reflexivity|].
    eapply Forall_impl; [|exact Hrows]. now intros band [H _].
  - apply Forall_concat.
    eapply Forall_impl; [|exact Hrows]. now intros band [_ H].
Qed.

End MeanFacts.

Lemma float_lt_spec (x y : float) : float_lt x y = true <-> lt_float x y.
Proof.
  destruct x as [p|], y as [q|]; simpl; try (split; [discriminate | tauto]).
  rewrite negb_true_iff, <- not_true_iff_false, Qle_bool_iff.
  split; [apply Qnot_le_lt | apply Qlt_not_le].
Qed.

Lemma float_ge_spec (x y : float) : float_ge x y = true <-> ge_float x y.
Proof.
  destruct x as [p|], y as [q|]; simpl; try (split; [discriminate | tauto]).
  apply Qle_bool_iff.
Qed.

Lemma float_eq_spec (x y : float) : float_eq x y = true <-> eq_float x y.
Proof.
  destruct x as [p|], y as [q|]; simpl; try (split; [discriminate | tauto]).
  apply Qeq_bool_iff.
Qed.

Lemma ge_not_lt_float (x y : float) : ge_float x y -> float_lt x y = false.
Proof.
  intros H. apply not_true_iff_false. rewrite float_lt_spec.
  destruct x as [p|], y as [q|]; simpl in *; try tauto.
  now apply Qle_not_lt.
Qed.

(** C4: an acquisition is classified usable exactly when its ratio is
    strictly below the threshold, and unusable whenever its ratio is at least
    the threshold, in particular when the two are equal; the two lists of the
    notebook are the acquisitions of each class. *)
Theorem classify_strict_threshold (ratio threshold : float) :
  (classify ratio threshold = Some usable <-> lt_float ratio threshold) /\
  (ge_float ratio threshold -> classify ratio threshold = Some unusable) /\
  (eq_float ratio threshold -> classify ratio threshold = Some unusable) /\
  (forall rasters ratios,
      cloud_free_rasters rasters ratios threshold
      = map fst (filter (fun p => is_label usable (classify (snd p) threshold))
                        (combine rasters ratios)) /\
      cloudy_rasters rasters ratios threshold
      = map fst (filter (fun p => is_label unusable (classify (snd p) threshold))
                        (combine rasters ratios))).
Proof.
  assert (Hge : ge_float ratio threshold ->
                classify ratio threshold = Some unusable).
  { intros H. unfold classify. rewrite (ge_not_lt_float _ _ H).
    apply float_ge_spec in H. now rewrite H. }
  repeat split.
  - unfold classify. intros H. apply float_lt_spec.
    destruct (float_lt ratio threshold); [reflexivity|].
    destruct (float_ge ratio threshold); discriminate.
  - intros H. apply float_lt_spec in H. unfold classify. now rewrite H.
  - exact Hge.
  - intros H. apply Hge.
    destruct ratio as [p|], threshold as [q|]; simpl in *; try tauto.
    rewrite H. apply Qle_refl.
  - unfold cloud_free_rasters. f_equal. apply filter_ext.
    intros [s2 c]. unfold classify. cbn [snd].
    destruct (float_lt c threshold); [reflexivity|].
    destruct (float_ge c threshold); reflexivity.
  - unfold cloudy_rasters. f_equal. apply filter_ext.
    intros [s2 c]. unfold classify. cbn [snd].
    destruct (float_lt c threshold) eqn:Hlt; [|destruct (float_ge c threshold); reflexivity].
    apply float_lt_spec in Hlt.
    destruct (float_ge c threshold) eqn:Hge'; [|reflexivity].
    apply float_ge_spec in Hge'.
    destruct c as [p|], threshold as [q|]; simpl in *; try tauto.
    exfalso. exact (Qlt_not_le _ _ Hlt Hge').
Qed.

(** ** Window resolver *)

Section ResolverFacts.
Local Open Scope Q_scope.

Lemma min4_le (p q r s : Q) :
  min4 p q r s <= p /\ min4 p q r s <= q /\
  min4 p q r s <= r /\ min4 p q r s <= s.
Proof. unfold min4. qminmax; lra. Qed.

Lemma max4_ge (p q r s : Q) :
  p <= max4 p q r s /\ q <= max4 p q r s /\
  r <= max4 p q r s /\ s <= max4 p q r s.
Proof. unfold max4. qminmax; lra. Qed.

Lemma min4_pairs (p q r s u v : Q) :
  p == u -> q == u -> r == v -> s == v -> min4 p q r s == Qmin u v.
Proof. intros. unfold min4. qminmax; lra. Qed.

Lemma max4_pairs (p q r s u v : Q) :
  p == u -> q == u -> r == v -> s == v -> max4 p q r s == Qmax u v.
Proof. intros. unfold max4. qminmax; lra. Qed.

Lemma min4_alternate (p q r s u v : Q) :
  p == u -> q == v -> r == u -> s == v -> min4 p q r s == Qmin u v.
Proof. intros. unfold min4. qminmax; lra. Qed.

Lemma max4_alternate (p q r s u v : Q) :
  p == u -> q == v -> r == u -> s == v -> max4 p q r s == Qmax u v.
Proof. intros. unfold max4. qminmax; lra. Qed.

(** An affine form over a box lies between the extreme values it takes at
    the four corners. *)
Lemma affine_form_between (ka kb kc x0 x1 y0 y1 x y : Q) :
  x0 <= x -> x <= x1 -> y0 <= y -> y <= y1 ->
  min4 (ka * x0 + kb * y0 + kc) (ka * x0 + kb * y1 + kc)
       (ka * x1 + kb * y0 + kc) (ka * x1 + kb * y1 + kc)
  <= ka * x + kb * y + kc /\
  ka * x + kb * y + kc
  <= max4 (ka * x0 + kb * y0 + kc) (ka * x0 + kb * y1 + kc)
          (ka * x1 + kb * y0 + kc) (ka * x1 + kb * y1 + kc).
Proof.
  intros Hx0 Hx1 Hy0 Hy1.
  pose proof (min4_le (ka * x0 + kb * y0 + kc) (ka * x0 + kb * y1 + kc)
                      (ka * x1 + kb * y0 + kc) (ka * x1 + kb * y1 + kc))
    as (L1 & L2 & L3 & L4).
  pose proof (max4_ge (ka * x0 + kb * y0 + kc) (ka * x0 + kb * y1 + kc)
                      (ka * x1 + kb * y0 + kc) (ka * x1 + kb * y1 + kc))
    as (U1 & U2 & U3 & U4).
  destruct (Qlt_le_dec ka 0) as [Ha|Ha]; destruct (Qlt_le_dec kb 0) as [Hb|Hb];
    split; nra.
Qed.

Lemma floor_lt (x : Q) (z : Z) : x < inject_Z z -> (Qfloor x < z)%Z.
Proof.
  intros H. rewrite Zlt_Qlt. pose proof (Qfloor_le x). lra.
Qed.

Lemma ceiling_gt (x : Q) (z : Z) : inject_Z z < x -> (z < Qceiling x)%Z.
Proof.
  intros H. rewrite Zlt_Qlt. pose proof (Qle_ceiling x). lra.
Qed.

Lemma floor_ge (x : Q) (z : Z) : inject_Z z <= x -> (z <= Qfloor x)%Z.
Proof.
  intros H. rewrite <- (Qfloor_Z z). now apply Qfloor_resp_le.
Qed.

Lemma ceiling_le (x : Q) (z : Z) : x <= inject_Z z -> (Qceiling x <= z)%Z.
Proof.
  intros H. rewrite <- (Qceiling_Z z). now apply Qceiling_resp_le.
Qed.

Lemma floor_exact (x : Q) (z : Z) : x == inject_Z z -> Qfloor x = z.
Proof. intros ->. apply Qfloor_Z. Qed.

Lemma ceiling_exact (x : Q) (z : Z) : x == inject_Z z -> Qceiling x = z.
Proof. intros ->. apply Qceiling_Z. Qed.

(** The inverse transform undoes the transform when the determinant is not
    zero. *)
Lemma invert_apply (t : Affine) (x y : Q) :
  ~ determinant t == 0 ->
  fst (apply_affine t (apply_affine (invert t) (x, y))) == x /\
  snd (apply_affine t (apply_affine (invert t) (x, y))) == y.
Proof.
  intros Hdet. destruct t as [ta tb tc td te tf].
  unfold apply_affine, invert, determinant in *.
  cbn [fst snd af_a af_b af_c af_d af_e af_f] in *.
  split; field; exact Hdet.
Qed.

Lemma apply_invert (t : Affine) (col row : Q) :
  ~ determinant t == 0 ->
  fst (apply_affine (invert t) (apply_affine t (col, row))) == col /\
  snd (apply_affine (invert t) (apply_affine t (col, row))) == row.
Proof.
  intros Hdet. destruct t as [ta tb tc td te tf].
  unfold apply_affine, invert, determinant in *.
  cbn [fst snd af_a af_b af_c af_d af_e af_f] in *.
  split; field; exact Hdet.
Qed.

(** Every point of an envelope has its pixel coordinates within the pixel
    bounds of the envelope. *)
Lemma envelope_in_pixel_bounds (env : Envelope) (t : Affine) (x y : Q) :
  in_envelope x y env ->
  in_pixel_bounds (apply_affine (invert t) (x, y)) (pixel_bounds env t).
Proof.
  intros (Hx0 & Hx1 & Hy0 & Hy1).
  unfold in_pixel_bounds, pixel_bounds.
  cbn [col_lo col_hi row_lo row_hi apply_affine fst snd].
  pose proof (affine_form_between
                (af_a (invert t)) (af_b (invert t)) (af_c (invert t))
                _ _ _ _ x y Hx0 Hx1 Hy0 Hy1) as [Hc0 Hc1].
  pose proof (affine_form_between
                (af_d (invert t)) (af_e (invert t)) (af_f (invert t))
                _ _ _ _ x y Hx0 Hx1 Hy0 Hy1) as [Hr0 Hr1].
  auto.
Qed.

End ResolverFacts.

Lemma resolve_window_cases (g : Geometry) (t : Affine) (size : RasterSize) :
  (is_empty (clamp (round_outward (pixel_bounds (bounds g) t)) size) = true /\
   resolve_window g t size = Raise "OutOfBounds"%string) \/
  (is_empty (clamp (round_outward (pixel_bounds (bounds g) t)) size) = false /\
   resolve_window g t size
   = Ok (clamp (round_outward (pixel_bounds (bounds g) t)) size)).
Proof.
  unfold resolve_window.
  destruct (is_empty (clamp (round_outward (pixel_bounds (bounds g) t)) size));
    [left | right]; split; reflexivity.
Qed.

Lemma resolve_window_Ok (g : Geometry) (t : Affine) (size : RasterSize)
  (w : PixelWindow) :
  resolve_window g t size = Ok w ->
  w = clamp (round_outward (pixel_bounds (bounds g) t)) size /\
  is_empty w = false.
Proof.
  destruct (resolve_window_cases g t size) as [[_ H]|[He H]];
    rewrite H; intros E; [discriminate|].
  injection E as <-. auto.
Qed.

Lemma clamp_valid (w : PixelWindow) (size : RasterSize) :
  is_empty (clamp w size) = false -> valid_window (clamp w size) size.
Proof.
  unfold is_empty, valid_window, clamp. cbn.
  rewrite orb_false_iff, !Z.leb_gt. lia.
Qed.

Lemma valid_not_empty (w : PixelWindow) (size : RasterSize) :
  valid_window w size -> is_empty w = false /\ clamp w size = w.
Proof.
  unfold is_empty, valid_window, clamp. destruct w as [rs re cs ce]. cbn.
  intros H. rewrite orb_false_iff, !Z.leb_gt. split; [lia|].
  f_equal; lia.
Qed.

Lemma disjoint_empty (pb : PixelBounds) (size : RasterSize) :
  disjoint_from_grid pb size ->
  is_empty (clamp (round_outward pb) size) = true.
Proof.
  unfold disjoint_from_grid, is_empty, clamp, round_outward. cbn.
  rewrite orb_true_iff, !Z.leb_le.
  intros [H|[H|[H|H]]].
  - apply (ceiling_le _ 0) in H. lia.
  - apply floor_ge in H. lia.
  - apply (ceiling_le _ 0) in H. lia.
  - apply floor_ge in H. lia.
Qed.

Lemma resolve_window_returns_valid (g : Geometry) (t : Affine)
  (size : RasterSize) (w : PixelWindow) :
  resolve_window g t size = Ok w ->
  w = clamp (round_outward (pixel_bounds (bounds g) t)) size /\
  valid_window w size.
Proof.
  intros Hw. apply resolve_window_Ok in Hw as [-> He].
  split; [reflexivity | now apply clamp_valid].
Qed.

(** C1, as the resolver has it: the window is the outward rounding of the
    envelope's fractional pixel bounds (floor below, ceiling above), clamped
    to the raster; every point of the envelope has its pixel coordinates
    within those bounds, and every pixel of the grid that overlaps them is in
    the window; when the bounds lie within the grid, nothing is clamped and
    the window contains them entirely. *)
Theorem resolve_window_covers (g : Geometry) (t : Affine) (size : RasterSize)
  (w : PixelWindow) :
  resolve_window g t size = Ok w ->
  (forall x y,
      in_envelope x y (bounds g) ->
      in_pixel_bounds (apply_affine (invert t) (x, y))
                      (pixel_bounds (bounds g) t)) /\
  w = clamp (round_outward (pixel_bounds (bounds g) t)) size /\
  (forall c r,
      in_grid c r size ->
      pixel_overlaps c r (pixel_bounds (bounds g) t) ->
      in_window c r w) /\
  (bounds_in_grid (pixel_bounds (bounds g) t) size ->
   w = round_outward (pixel_bounds (bounds g) t) /\
   window_contains w (pixel_bounds (bounds g) t)).
Proof.
  intros H. apply resolve_window_Ok in H as [-> _].
  set (pb := pixel_bounds (bounds g) t).
  split; [intros x y; apply envelope_in_pixel_bounds|].
  split; [reflexivity|]. split.
  - intros c r [Hc Hr] (Hc1 & Hc0 & Hr1 & Hr0).
    apply ceiling_gt in Hc1, Hr1. apply floor_lt in Hc0, Hr0.
    unfold in_grid in *. unfold in_window, clamp, round_outward.
    cbn [row_start row_stop col_start col_stop]. lia.
  - intros (Hc0 & Hc1 & Hr0 & Hr1).
    assert (E : clamp (round_outward pb) size = round_outward pb).
    { apply (floor_ge _ 0) in Hc0, Hr0. apply ceiling_le in Hc1, Hr1.
      unfold clamp, round_outward.
      cbn [row_start row_stop col_start col_stop]. f_equal; lia. }
    rewrite E. split; [reflexivity|].
    unfold window_contains, round_outward.
    cbn [row_start row_stop col_start col_stop].
    repeat split;
      first [apply Qfloor_le | apply Qle_ceiling].
Qed.

(** The end-to-end scenario: the envelope (500000, 9930000)-(501000, 9931000)
    on the raster of 10-metre pixels resolves to a window of 100 x 100 pixels
    that contains it. *)
Lemma resolve_window_covers_witness :
  resolve_window (Box 500000 9930000 501000 9931000)
                 scenario_transform scenario_size
  = Ok (mkWindow 6900 7000 2 102) /\
  window_contains
    (mkWindow 6900 7000 2 102)
    (pixel_bounds (bounds (Box 500000 9930000 501000 9931000))
                  scenario_transform).
Proof.
  assert (H : resolve_window (Box 500000 9930000 501000 9931000)
                             scenario_transform scenario_size
              = Ok (mkWindow 6900 7000 2 102)) by reflexivity.
  split; [exact H|].
  destruct (resolve_window_covers _ _ _ _ H) as (_ & _ & _ & Hin).
  apply Hin. vm_compute. repeat split; discriminate.
Defined.

(** C1, as stated, fails: an envelope that reaches beyond the left edge of
    the raster intersects its grid, and the window returned starts at column
    0, to the right of the envelope's lower bound: it is the clamped
    rectangle, not the floor and ceiling of the bounds, and it does not
    contain the envelope. *)
Lemma resolve_window_clamped_not_containing :
  resolve_window (Box 499000 9930000 501000 9931000)
                 scenario_transform scenario_size
  = Ok (mkWindow 6900 7000 0 102) /\
  round_outward (pixel_bounds (bounds (Box 499000 9930000 501000 9931000))
                              scenario_transform)
  = mkWindow 6900 7000 (-98) 102 /\
  ~ window_contains
      (mkWindow 6900 7000 0 102)
      (pixel_bounds (bounds (Box 499000 9930000 501000 9931000))
                    scenario_transform).
Proof.
  split; [reflexivity|]. split; [reflexivity|].
  intros (H & _). vm_compute in H. apply H. reflexivity.
Qed.

Section RoundTrip.
Local Open Scope Q_scope.

Lemma box_bounds_1d (x0 x1 p q : Q) :
  x0 == Qmin p q -> x1 == Qmax p q ->
  Qmin x0 x1 == Qmin p q /\ Qmax x0 x1 == Qmax p q.
Proof. intros H0 H1. split; qminmax; lra. Qed.

(** Along one axis: the images of two integer coordinates under a non-zero
    scaling, ordered by min and max, come back to the two coordinates in
    increasing order. *)
Lemma roundtrip_1d (k off lo hi u v : Q) (z0 z1 : Z) :
  ~ k == 0 -> (z0 < z1)%Z ->
  lo == Qmin (k * inject_Z z0 + off) (k * inject_Z z1 + off) ->
  hi == Qmax (k * inject_Z z0 + off) (k * inject_Z z1 + off) ->
  u == (lo - off) / k -> v == (hi - off) / k ->
  Qmin u v == inject_Z z0 /\ Qmax u v == inject_Z z1.
Proof.
  intros Hk Hz Hlo Hhi Hu Hv. rewrite Zlt_Qlt in Hz.
  assert (B0 : (k * inject_Z z0 + off - off) / k == inject_Z z0)
    by (field; exact Hk).
  assert (B1 : (k * inject_Z z1 + off - off) / k == inject_Z z1)
    by (field; exact Hk).
  destruct (Q_dec k 0) as [[Hneg|Hpos]|Hzero]; [| |contradiction].
  - assert (Hord : k * inject_Z z1 < k * inject_Z z0) by nra.
    assert (Elo : lo == k * inject_Z z1 + off)
      by (rewrite Hlo; qminmax; lra).
    assert (Ehi : hi == k * inject_Z z0 + off)
      by (rewrite Hhi; qminmax; lra).
    rewrite Elo, B1 in Hu. rewrite Ehi, B0 in Hv.
    split; qminmax; lra.
  - assert (Hord : k * inject_Z z0 < k * inject_Z z1) by nra.
    assert (Elo : lo == k * inject_Z z0 + off)
      by (rewrite Hlo; qminmax; lra).
    assert (Ehi : hi == k * inject_Z z1 + off)
      by (rewrite Hhi; qminmax; lra).
    rewrite Elo, B0 in Hu. rewrite Ehi, B1 in Hv.
    split; qminmax; lra.
Qed.

Lemma apply_axis_aligned (t : Affine) (col row : Q) :
  axis_aligned t ->
  fst (apply_affine t (col, row)) == af_a t * col + af_c t /\
  snd (apply_affine t (col, row)) == af_e t * row + af_f t.
Proof.
  intros (Hb & Hd & _). unfold apply_affine. cbn [fst snd].
  rewrite Hb, Hd. split; ring.
Qed.

Lemma invert_axis_aligned (t : Affine) (x y : Q) :
  axis_aligned t ->
  fst (apply_affine (invert t) (x, y)) == (x - af_c t) / af_a t /\
  snd (apply_affine (invert t) (x, y)) == (y - af_f t) / af_e t.
Proof.
  intros (Hb & Hd & Ha & He).
  unfold apply_affine, invert, determinant.
  cbn [fst snd af_a af_b af_c af_d af_e af_f].
  rewrite Hb, Hd. split; field; auto.
Qed.

(** The envelope of a window under an axis-aligned transform has exactly
    the window's corners as pixel bounds. *)
Lemma pixel_bounds_window_envelope (w : PixelWindow) (t : Affine) :
  axis_aligned t ->
  (col_start w < col_stop w)%Z -> (row_start w < row_stop w)%Z ->
  col_lo (pixel_bounds (bounds (window_envelope w t)) t)
  == inject_Z (col_start w) /\
  col_hi (pixel_bounds (bounds (window_envelope w t)) t)
  == inject_Z (col_stop w) /\
  row_lo (pixel_bounds (bounds (window_envelope w t)) t)
  == inject_Z (row_start w) /\
  row_hi (pixel_bounds (bounds (window_envelope w t)) t)
  == inject_Z (row_stop w).
Proof.
  intros Ht Hc Hr.
  pose proof Ht as (_ & _ & Ha & He).
  unfold window_envelope.
  set (q1 := apply_affine t (inject_Z (col_start w), inject_Z (row_start w))).
  set (q2 := apply_affine t (inject_Z (col_start w), inject_Z (row_stop w))).
  set (q3 := apply_affine t (inject_Z (col_stop w), inject_Z (row_start w))).
  set (q4 := apply_affine t (inject_Z (col_stop w), inject_Z (row_stop w))).
  destruct (apply_axis_aligned t (inject_Z (col_start w))
              (inject_Z (row_start w)) Ht) as [X1 Y1].
  destruct (apply_axis_aligned t (inject_Z (col_start w))
              (inject_Z (row_stop w)) Ht) as [X2 Y2].
  destruct (apply_axis_aligned t (inject_Z (col_stop w))
              (inject_Z (row_start w)) Ht) as [X3 Y3].
  destruct (apply_axis_aligned t (inject_Z (col_stop w))
              (inject_Z (row_stop w)) Ht) as [X4 Y4].
  fold q1 in X1, Y1. fold q2 in X2, Y2. fold q3 in X3, Y3. fold q4 in X4, Y4.
  destruct (box_bounds_1d _ _ _ _
              (min4_pairs _ _ _ _ _ _ X1 X2 X3 X4)
              (max4_pairs _ _ _ _ _ _ X1 X2 X3 X4)) as [Exlo Exhi].
  destruct (box_bounds_1d _ _ _ _
              (min4_alternate _ _ _ _ _ _ Y1 Y2 Y3 Y4)
              (max4_alternate _ _ _ _ _ _ Y1 Y2 Y3 Y4)) as [Eylo Eyhi].
  cbn [bounds].
  set (env := mkEnvelope _ _ _ _).
  pose proof (Exlo : minx env == _) as Fxlo.
  pose proof (Exhi : maxx env == _) as Fxhi.
  pose proof (Eylo : miny env == _) as Fylo.
  pose proof (Eyhi : maxy env == _) as Fyhi.
  clear Exlo Exhi Eylo Eyhi. clearbody env. unfold pixel_bounds.
  cbn [col_lo col_hi row_lo row_hi].
  destruct (invert_axis_aligned t (minx env) (miny env) Ht) as [C1 R1].
  destruct (invert_axis_aligned t (minx env) (maxy env) Ht) as [C2 R2].
  destruct (invert_axis_aligned t (maxx env) (miny env) Ht) as [C3 R3].
  destruct (invert_axis_aligned t (maxx env) (maxy env) Ht) as [C4 R4].
  destruct (roundtrip_1d (af_a t) (af_c t) _ _ _ _ _ _ Ha Hc Fxlo Fxhi
              (Qeq_refl _) (Qeq_refl _)) as [Ec0 Ec1].
  destruct (roundtrip_1d (af_e t) (af_f t) _ _ _ _ _ _ He Hr Fylo Fyhi
              (Qeq_refl _) (Qeq_refl _)) as [Er0 Er1].
  rewrite (min4_pairs _ _ _ _ _ _ C1 C2 C3 C4).
  rewrite (max4_pairs _ _ _ _ _ _ C1 C2 C3 C4).
  rewrite (min4_alternate _ _ _ _ _ _ R1 R2 R3 R4).
  rewrite (max4_alternate _ _ _ _ _ _ R1 R2 R3 R4).
  auto.
Qed.

End RoundTrip.

(** C8, for rasters without rotation: with an axis-aligned transform, the
    CRS envelope of a window produced by [resolve_window] resolves, against
    the same transform and size, to that window again. *)
Theorem resolve_window_idempotent (g : Geometry) (t : Affine)
  (size : RasterSize) (w : PixelWindow) :
  axis_aligned t ->
  resolve_window g t size = Ok w ->
  resolve_window (window_envelope w t) t size = Ok w.
Proof.
  intros Ht H.
  destruct (resolve_window_returns_valid g t size w H) as [_ Hvalid].
  pose proof Hvalid as (_ & Hr & _ & _ & Hc & _).
  destruct (pixel_bounds_window_envelope w t Ht Hc Hr)
    as (Ec0 & Ec1 & Er0 & Er1).
  destruct (valid_not_empty w size Hvalid) as [Hne Hclamp].
  assert (E : round_outward (pixel_bounds (bounds (window_envelope w t)) t) = w).
  { unfold round_outward.
    rewrite (floor_exact _ _ Ec0), (ceiling_exact _ _ Ec1),
      (floor_exact _ _ Er0), (ceiling_exact _ _ Er1).
    now destruct w. }
  unfold resolve_window. rewrite E, Hclamp, Hne. reflexivity.
Qed.

Lemma resolve_window_idempotent_witness :
  axis_aligned scenario_transform /\
  resolve_window (Box 500000 9930000 501000 9931000)
                 scenario_transform scenario_size
  = Ok (mkWindow 6900 7000 2 102) /\
  resolve_window (window_envelope (mkWindow 6900 7000 2 102) scenario_transform)
                 scenario_transform scenario_size
  = Ok (mkWindow 6900 7000 2 102).
Proof.
  assert (Ht : axis_aligned scenario_transform).
  { unfold axis_aligned. repeat split; try reflexivity;
      intro H; vm_compute in H; discriminate H. }
  assert (H : resolve_window (Box 500000 9930000 501000 9931000)
                             scenario_transform scenario_size
              = Ok (mkWindow 6900 7000 2 102)) by reflexivity.
  split; [exact Ht|]. split; [exact H|].
  exact (resolve_window_idempotent _ _ _ _ Ht H).
Defined.

(** C8, as stated, fails on a rotated raster: the window of the single pixel
    (2, 2), resolved from a point, has a CRS envelope that spreads over the
    neighbouring pixels, and resolves to a window of 3 x 3 pixels. *)
Lemma resolve_window_rotated_not_idempotent :
  ~ determinant rotated_transform == 0 /\
  resolve_window (Point 0 5) rotated_transform (mkSize 10 10)
  = Ok (mkWindow 2 3 2 3) /\
  resolve_window (window_envelope (mkWindow 2 3 2 3) rotated_transform)
                 rotated_transform (mkSize 10 10)
  = Ok (mkWindow 1 4 1 4) /\
  resolve_window (window_envelope (mkWindow 2 3 2 3) rotated_transform)
                 rotated_transform (mkSize 10 10)
  <> Ok (mkWindow 2 3 2 3).
Proof.
  split; [intro H; vm_compute in H; discriminate H|].
  split; [reflexivity|]. split; [reflexivity|].
  vm_compute. discriminate.
Qed.

(** ** Windowed raster reader *)

Lemma length_zrange (lo hi : Z) : List.length (zrange lo hi) = Z.to_nat (hi - lo).
Proof. unfold zrange. now rewrite length_map, length_seq. Qed.

Lemma valid_windowb_spec (w : PixelWindow) (size : RasterSize) :
  valid_windowb w size = true <-> valid_window w size.
Proof.
  unfold valid_windowb, valid_window.
  rewrite !andb_true_iff, !Z.leb_le, !Z.ltb_lt. tauto.
Qed.

Lemma read_window_shape (src : RasterFile) (w : PixelWindow) (fill : bool) :
  has_shape (read_window src w fill) (count src)
            (Z.to_nat (window_rows w)) (Z.to_nat (window_cols w)).
Proof.
  unfold has_shape, read_window. split.
  - now rewrite length_map, length_seq.
  - apply Forall_map, Forall_forall. intros band _. split.
    + now rewrite length_map, length_zrange.
    + apply Forall_map, Forall_forall. intros r _.
      now rewrite length_map, length_zrange.
Qed.

(** The pixel [(i, j)] of the sub-window is located where the pixel
    [(col_start + i, row_start + j)] of the raster is. *)
Lemma window_transform_location (w : PixelWindow) (t : Affine) (i j : Q) :
  (fst (apply_affine (window_transform w t) (i, j))
   == fst (apply_affine t (inject_Z (col_start w) + i,
                           inject_Z (row_start w) + j)) /\
   snd (apply_affine (window_transform w t) (i, j))
   == snd (apply_affine t (inject_Z (col_start w) + i,
                           inject_Z (row_start w) + j)))%Q.
Proof.
  unfold window_transform, apply_affine.
  cbn [fst snd af_a af_b af_c af_d af_e af_f]. split; ring.
Qed.

(** C5: on a raster that can be opened and a window valid within its grid,
    [read] returns an array of shape [(bands, window rows, window cols)]
    together with the transform of the sub-window, which locates each of its
    pixels where the raster's transform locates the pixel read. *)
Theorem read_shape (storage : Storage) (raster_ref : Raster) (w : PixelWindow)
  (fill_invalid : bool) (src : RasterFile) :
  storage (raster_asset_url raster_ref) = Some src ->
  valid_window w (size src) ->
  exists ar tr,
    read storage raster_ref w fill_invalid = Ok (ar, tr) /\
    has_shape ar (count src)
              (Z.to_nat (window_rows w)) (Z.to_nat (window_cols w)) /\
    tr = window_transform w (transform src) /\
    forall i j : Q,
      (fst (apply_affine tr (i, j))
       == fst (apply_affine (transform src)
                            (inject_Z (col_start w) + i,
                             inject_Z (row_start w) + j)) /\
       snd (apply_affine tr (i, j))
       == snd (apply_affine (transform src)
                            (inject_Z (col_start w) + i,
                             inject_Z (row_start w) + j)))%Q.
Proof.
  intros Hopen Hvalid. unfold read. rewrite Hopen.
  apply valid_windowb_spec in Hvalid. rewrite Hvalid.
  eexists _, _. split; [reflexivity|].
  split; [apply read_window_shape|].
  split; [reflexivity|].
  intros i j. apply window_transform_location.
Qed.

(** By geometry, the read is the read of the resolved window, and a geometry
    outside the raster aborts it with the resolver's error. *)
Lemma read_geometry_resolved (storage : Storage) (raster_ref : Raster)
  (g : Geometry) (fill_invalid : bool) (src : RasterFile) :
  storage (raster_asset_url raster_ref) = Some src ->
  (forall w,
      resolve_window g (transform src) (size src) = Ok w ->
      read_geometry storage raster_ref g fill_invalid
      = Ok (read_window src w fill_invalid,
            window_transform w (transform src))) /\
  (resolve_window g (transform src) (size src) = Raise "OutOfBounds"%string ->
   read_geometry storage raster_ref g fill_invalid
   = Raise "OutOfBounds"%string).
Proof.
  intros Hopen. unfold read_geometry. rewrite Hopen. split.
  - intros w Hw. rewrite Hw. cbn [bind]. unfold read. rewrite Hopen.
    destruct (resolve_window_returns_valid _ _ _ _ Hw) as [_ Hvalid].
    apply valid_windowb_spec in Hvalid. now rewrite Hvalid.
  - intros Hw. now rewrite Hw.
Qed.

Lemma read_shape_witness :
  scenario_storage (raster_asset_url scenario_raster) = Some scenario_file /\
  valid_window (mkWindow 6900 6902 2 5) (size scenario_file) /\
  exists ar tr,
    read scenario_storage scenario_raster (mkWindow 6900 6902 2 5) false
    = Ok (ar, tr) /\
    has_shape ar 4 2 3.
Proof.
  assert (Hopen : scenario_storage (raster_asset_url scenario_raster)
                  = Some scenario_file) by reflexivity.
  assert (Hvalid : valid_window (mkWindow 6900 6902 2 5) (size scenario_file)).
  { unfold valid_window. cbn. lia. }
  split; [exact Hopen|]. split; [exact Hvalid|].
  destruct (read_shape scenario_storage scenario_raster
              (mkWindow 6900 6902 2 5) false scenario_file Hopen Hvalid)
    as (ar & tr & Hread & Hshape & _).
  exists ar, tr. split; [exact Hread | exact Hshape].
Defined.

(** ** Scenarios *)

(** Of two rasters two days before and two days after the reference, the
    one listed first is returned. *)
Example nearest_tie_scenario :
  nearest (datetime 2018 6 8)
          [on_day 2018 6 10 "late"; on_day 2018 6 6 "early"]
  = Ok (on_day 2018 6 10 "late").
Proof. reflexivity. Qed.

(** A collection of one raster at the reference time: that raster, at
    distance zero. *)
Example nearest_single_scenario :
  nearest (datetime 2018 6 6) [on_day 2018 6 6 "b"] = Ok (on_day 2018 6 6 "b") /\
  time_distance (datetime 2018 6 6) (on_day 2018 6 6 "b") = 0.
Proof. split; reflexivity. Qed.

(** * The plotting cells *)

(** ** Python sequences *)

Lemma nth_error_nil_any {A : Type} (n : nat) : nth_error (@nil A) n = None.
Proof. now destruct n. Qed.

Lemma stride_from_nth {A : Type} (step skip : nat) (l : list A) (i : nat) :
  (0 < step)%nat ->
  nth_error (stride_from step skip l) i = nth_error l (skip + step * i).
Proof.
  intros Hstep. revert skip i.
  induction l as [|x l IH]; intros skip i.
  - cbn [stride_from]. now rewrite !nth_error_nil_any.
  - destruct skip as [|skip]; cbn [stride_from].
    + destruct i as [|i].
      * now rewrite Nat.mul_0_r.
      * cbn [nth_error]. rewrite IH.
        replace (0 + step * S i)%nat with (S (step - 1 + step * i)) by lia.
        reflexivity.
    + rewrite IH. reflexivity.
Qed.

Lemma stride_from_length {A : Type} (step skip : nat) (l : list A) :
  (skip < step)%nat ->
  List.length (stride_from step skip l)
  = ((List.length l + step - 1 - skip) / step)%nat.
Proof.
  intros Hskip. revert skip Hskip.
  induction l as [|x l IH]; intros skip Hskip.
  - cbn [stride_from List.length]. symmetry. apply Nat.div_small. lia.
  - destruct skip as [|skip]; cbn [stride_from List.length].
    + rewrite IH by lia.
      replace (S (List.length l) + step - 1 - 0)%nat
        with (List.length l + 1 * step)%nat by lia.
      rewrite Nat.div_add by lia.
      replace (List.length l + step - 1 - (step - 1))%nat
        with (List.length l) by lia.
      lia.
    + rewrite IH by lia. f_equal. lia.
Qed.

Lemma slice_step_nth {A : Type} (step : nat) (l : list A) (i : nat) :
  (0 < step)%nat -> nth_error (slice_step step l) i = nth_error l (step * i).
Proof. intros H. unfold slice_step. now rewrite stride_from_nth. Qed.

Lemma slice_step_length {A : Type} (step : nat) (l : list A) :
  (0 < step)%nat ->
  List.length (slice_step step l) = ((List.length l + step - 1) / step)%nat.
Proof.
  intros H. unfold slice_step. rewrite stride_from_length by exact H.
  f_equal. lia.
Qed.

Lemma slice_step_not_nil {A : Type} (step : nat) (l : list A) :
  l <> [] -> slice_step step l <> [].
Proof. destruct l; [congruence | discriminate]. Qed.

Lemma py_range_In (start stop step i : Z) :
  0 < step -> In i (py_range start stop step) ->
  start <= i < stop /\ (i - start) mod step = 0.
Proof.
  intros Hstep Hin. unfold py_range in Hin.
  apply in_map_iff in Hin as (k & <- & Hk). apply in_seq in Hk.
  assert (Hk' : Z.of_nat k < (stop - start + step - 1) / step) by lia.
  assert (Hmul : step * ((stop - start + step - 1) / step)
                 <= stop - start + step - 1)
    by (apply Z.mul_div_le; lia).
  split; [nia|].
  replace (start + step * Z.of_nat k - start) with (Z.of_nat k * step) by ring.
  apply Z.mod_mul. lia.
Qed.

Lemma py_range_length (start stop step : Z) :
  List.length (py_range start stop step)
  = Z.to_nat ((stop - start + step - 1) / step).
Proof. unfold py_range. now rewrite length_map, length_seq. Qed.

Lemma getitem_in_range {A : Type} (l : list A) (i : Z) :
  0 <= i < Z.of_nat (List.length l) ->
  exists x, getitem l i = Ok x /\ In x l.
Proof.
  intros Hi. unfold getitem.
  replace (i <? 0) with false by (symmetry; apply Z.ltb_ge; lia).
  replace (i <? 0) with false by (symmetry; apply Z.ltb_ge; lia).
  replace (Z.of_nat (List.length l) <=? i) with false
    by (symmetry; apply Z.leb_gt; lia).
  cbn [orb].
  destruct (nth_error l (Z.to_nat i)) as [x|] eqn:E.
  - exists x. split; [reflexivity|]. eapply nth_error_In, E.
  - apply nth_error_None in E. lia.
Qed.

Lemma for_each_map {A B : Type} (body : A -> result B) (g : A -> B)
  (l : list A) :
  (forall x, In x l -> body x = Ok (g x)) -> for_each body l = Ok (map g l).
Proof.
  induction l as [|x l IH]; intros H; [reflexivity|].
  cbn [for_each map]. rewrite (H x (or_introl eq_refl)). cbn [bind].
  rewrite IH; [reflexivity|]. intros y Hy. apply H. now right.
Qed.

Lemma for_each_Forall2 {A B : Type} (body : A -> result B)
  (P : A -> B -> Prop) (l : list A) :
  (forall x, In x l -> exists y, body x = Ok y /\ P x y) ->
  exists ys, for_each body l = Ok ys /\ Forall2 P l ys.
Proof.
  induction l as [|x l IH]; intros H.
  - exists []. split; [reflexivity | constructor].
  - destruct (H x (or_introl eq_refl)) as (y & Hy & HP).
    destruct IH as (ys & Hys & HF); [intros z Hz; apply H; now right|].
    exists (y :: ys). cbn [for_each]. rewrite Hy. cbn [bind]. rewrite Hys.
    split; [reflexivity | now constructor].
Qed.

Lemma enumerate_In {A : Type} (l : list A) (i : Z) (x : A) :
  In (i, x) (enumerate l) -> 0 <= i < Z.of_nat (List.length l) /\ In x l.
Proof.
  intros H. unfold enumerate in H. split.
  - apply in_combine_l in H. apply in_map_iff in H as (k & <- & Hk).
    apply in_seq in Hk. lia.
  - eapply in_combine_r, H.
Qed.

Lemma math_ceil_div_ge (n d : Z) : 0 < d -> n <= math_ceil_div n d * d.
Proof.
  intros Hd. unfold math_ceil_div.
  pose proof (Qle_ceiling (inject_Z n / inject_Z d)) as H.
  assert (Hd' : (0 < inject_Z d)%Q) by (change 0%Q with (inject_Z 0); now rewrite <- Zlt_Qlt).
  apply (Qmult_le_r _ _ _ Hd') in H.
  rewrite Zle_Qle, inject_Z_mult.
  assert (E : (inject_Z n / inject_Z d * inject_Z d == inject_Z n)%Q)
    by (field; lra).
  now rewrite E in H.
Qed.

Lemma math_ceil_div_nonneg (n d : Z) : 0 <= n -> 0 < d -> 0 <= math_ceil_div n d.
Proof.
  intros Hn Hd. pose proof (math_ceil_div_ge n d Hd). nia.
Qed.

(** ** The tile and the outline of the region *)

Lemma stride_from_In {A : Type} (step skip : nat) (l : list A) (x : A) :
  In x (stride_from step skip l) -> In x l.
Proof.
  revert skip. induction l as [|y l IH]; intros skip H; [contradiction|].
  destruct skip as [|skip]; cbn [stride_from] in H.
  - destruct H as [->|H]; [now left | right; eapply IH, H].
  - right. eapply IH, H.
Qed.

(** X1: the subsampled image [ar[:, ::10, ::10]] keeps every band, one row in
    ten and one column in ten ([ceil(rows / 10)] by [ceil(cols / 10)]), and
    its pixel [(i, j)] is the pixel [(10 i, 10 j)] of the tile. *)
Theorem subsample_every_tenth (ar : ndarray) (bands rows cols : nat) :
  has_shape ar bands rows cols ->
  has_shape (subsample ar) bands ((rows + 9) / 10) ((cols + 9) / 10) /\
  forall band i j : nat,
    pixel_at (subsample ar) band i j = pixel_at ar band (10 * i) (10 * j).
Proof.
  intros [Hbands Hrows]. split.
  - unfold has_shape, subsample. split; [now rewrite length_map|].
    apply Forall_map. eapply Forall_impl; [|exact Hrows].
    intros band [Hlen Hcols]. split.
    + rewrite length_map, slice_step_length by lia. rewrite Hlen.
      f_equal. lia.
    + apply Forall_map, Forall_forall. intros row Hrow.
      apply stride_from_In in Hrow. rewrite Forall_forall in Hcols.
      rewrite slice_step_length by lia. rewrite (Hcols row Hrow).
      f_equal. lia.
  - intros band i j. unfold pixel_at, subsample.
    rewrite nth_error_map.
    destruct (nth_error ar band) as [rows'|]; [|reflexivity].
    cbn [option_map]. rewrite nth_error_map, slice_step_nth by lia.
    destruct (nth_error rows' (10 * i)) as [values|]; [|reflexivity].
    cbn [option_map]. apply slice_step_nth. lia.
Qed.

Lemma subsample_every_tenth_witness :
  has_shape (block_mask 12 25 7) 1 12 25 /\
  has_shape (subsample (block_mask 12 25 7)) 1 2 3 /\
  pixel_at (subsample (block_mask 12 25 7)) 0 1 2
  = pixel_at (block_mask 12 25 7) 0 10 20.
Proof.
  assert (H : has_shape (block_mask 12 25 7) 1 12 25).
  { unfold has_shape. split; [reflexivity|].
    repeat constructor. }
  split; [exact H|].
  destruct (subsample_every_tenth _ _ _ _ H) as [Hshape Hpixel].
  split; [exact Hshape | apply Hpixel].
Defined.

(** X2: the outline drawn over the tile is the closed rectangle through the
    four corners of the window, and once divided by 10 it encloses exactly
    the pixels of the subsampled image that come from pixels of the
    window. *)
Theorem outline_is_window_rectangle (win : PixelWindow) :
  combine (fst (window_outline win)) (snd (window_outline win))
  = [ (col_start win, row_start win); (col_stop win, row_start win);
      (col_stop win, row_stop win); (col_start win, row_stop win);
      (col_start win, row_start win) ] /\
  forall i j : Z,
    in_window (10 * i) (10 * j) win <->
    (nth 0 (fst (outline_plot win)) 0 <= inject_Z i /\
     inject_Z i < nth 1 (fst (outline_plot win)) 0 /\
     nth 0 (snd (outline_plot win)) 0 <= inject_Z j /\
     inject_Z j < nth 2 (snd (outline_plot win)) 0)%Q.
Proof.
  destruct win as [r0 r1 c0 c1]. split; [reflexivity|].
  intros i j. unfold in_window, outline_plot, window_outline, toranges.
  cbn [rev app nth firstn flat_map repeat map fst snd
       row_start row_stop col_start col_stop].
  rewrite !Zle_Qle, !Zlt_Qlt, !inject_Z_mult.
  change (inject_Z 10) with 10%Q.
  unfold Qdiv. change (/ 10)%Q with (1 # 10)%Q.
  split; intros H; repeat split; lra.
Qed.

(** ** Cloud-free and cloudy acquisitions *)

Lemma subsequence_nil_l {A : Type} (l : list A) : subsequence [] l.
Proof. induction l; constructor; assumption. Qed.

Lemma subsequence_refl {A : Type} (l : list A) : subsequence l l.
Proof. induction l; constructor; assumption. Qed.

Lemma subsequence_In {A : Type} (l1 l2 : list A) (x : A) :
  subsequence l1 l2 -> In x l1 -> In x l2.
Proof.
  induction 1 as [|y l1 l2 _ IH|y l1 l2 _ IH]; intros Hx.
  - contradiction.
  - destruct Hx as [->|Hx]; [now left | right; auto].
  - right; auto.
Qed.

Lemma subsequence_length {A : Type} (l1 l2 : list A) :
  subsequence l1 l2 -> (List.length l1 <= List.length l2)%nat.
Proof. induction 1; cbn [List.length]; lia. Qed.

(** A comprehension over [zip(rasters, ratios)] keeps rasters of the first
    list, in their order. *)
Lemma zip_filter_subsequence (keep : Raster * float -> bool)
  (rasters : list Raster) (ratios : list float) :
  subsequence (map fst (filter keep (combine rasters ratios))) rasters.
Proof.
  revert ratios. induction rasters as [|r rasters IH]; intros ratios.
  - constructor.
  - destruct ratios as [|c ratios]; [apply subsequence_nil_l|].
    cbn [combine filter]. destruct (keep (r, c)); cbn [map fst].
    + apply subsequence_keep, IH.
    + apply subsequence_drop, IH.
Qed.

(** A weaker condition keeps at least the same acquisitions. *)
Lemma zip_filter_weaken (keep keep' : Raster * float -> bool)
  (pairs : list (Raster * float)) :
  (forall p, keep p = true -> keep' p = true) ->
  subsequence (map fst (filter keep pairs)) (map fst (filter keep' pairs)).
Proof.
  intros H. induction pairs as [|p pairs IH]; [constructor|].
  cbn [filter]. destruct (keep p) eqn:E.
  - rewrite (H p E). cbn [map]. now apply subsequence_keep.
  - destruct (keep' p); cbn [map]; [now apply subsequence_drop | exact IH].
Qed.

(** X3: each of the two lists holds rasters of the input, in their input
    order, and none of the rasters beyond the number of ratios. *)
Theorem cloud_lists_are_subsequences (rasters : list Raster)
  (ratios : list float) (thr : float) :
  subsequence (cloud_free_rasters rasters ratios thr)
              (firstn (List.length ratios) rasters) /\
  subsequence (cloudy_rasters rasters ratios thr)
              (firstn (List.length ratios) rasters) /\
  subsequence (firstn (List.length ratios) rasters) rasters.
Proof.
  assert (Hzip : combine rasters ratios
                 = combine (firstn (List.length ratios) rasters) ratios).
  { revert ratios. induction rasters as [|r rasters IH]; intros ratios.
    - now rewrite firstn_nil.
    - destruct ratios as [|c ratios]; [reflexivity|].
      cbn [List.length firstn combine]. now rewrite <- IH. }
  unfold cloud_free_rasters, cloudy_rasters. rewrite Hzip.
  split; [apply zip_filter_subsequence|].
  split; [apply zip_filter_subsequence|].
  clear Hzip. revert ratios.
  induction rasters as [|r rasters IH]; intros ratios.
  - rewrite firstn_nil. constructor.
  - destruct ratios as [|c ratios]; cbn [List.length firstn].
    + apply subsequence_nil_l.
    + apply subsequence_keep, IH.
Qed.

(** X4: with a threshold that is a number, the acquisitions whose ratio is a
    number are split between the two lists, each in exactly one: the two
    lists together are a rearrangement of those acquisitions, and an
    acquisition whose ratio is [nan] is in neither. *)
Theorem cloud_lists_split_finite (rasters : list Raster) (ratios : list float)
  (q : Q) :
  Permutation
    (cloud_free_rasters rasters ratios (Finite q)
     ++ cloudy_rasters rasters ratios (Finite q))
    (map fst (filter (fun p => is_finite (snd p)) (combine rasters ratios))) /\
  (List.length (cloud_free_rasters rasters ratios (Finite q))
   + List.length (cloudy_rasters rasters ratios (Finite q))
   = List.length (filter is_finite (firstn (List.length rasters) ratios)))%nat.
Proof.
  unfold cloud_free_rasters, cloudy_rasters. split.
  - induction (combine rasters ratios) as [|[r c] pairs IH]; [constructor|].
    cbn [filter snd]. destruct c as [p|]; cbn [float_lt float_ge is_finite].
    + destruct (Qle_bool q p); cbn [negb map fst app].
      * apply Permutation_sym, Permutation_cons_app, Permutation_sym, IH.
      * apply perm_skip, IH.
    + exact IH.
  - revert ratios. induction rasters as [|r rasters IH]; intros ratios.
    + reflexivity.
    + destruct ratios as [|c ratios]; [reflexivity|].
      cbn [combine filter List.length firstn snd]. specialize (IH ratios).
      destruct c as [p|]; cbn [float_lt float_ge is_finite].
      * destruct (Qle_bool q p); cbn [negb map List.length]; lia.
      * exact IH.
Qed.

(** X5: raising the threshold only moves acquisitions from the cloudy list
    to the cloud-free one. *)
Theorem cloud_lists_monotone (rasters : list Raster) (ratios : list float)
  (q q' : Q) :
  (q <= q')%Q ->
  subsequence (cloud_free_rasters rasters ratios (Finite q))
              (cloud_free_rasters rasters ratios (Finite q')) /\
  subsequence (cloudy_rasters rasters ratios (Finite q'))
              (cloudy_rasters rasters ratios (Finite q)).
Proof.
  intros Hq. unfold cloud_free_rasters, cloudy_rasters.
  split; apply zip_filter_weaken; intros [r c]; cbn [snd];
    rewrite ?float_lt_spec, ?float_ge_spec;
    destruct c as [p|]; cbn [lt_float ge_float]; try tauto; intros H.
  - eapply Qlt_le_trans; eassumption.
  - eapply Qle_trans; eassumption.
Qed.

Lemma cloud_lists_monotone_witness :
  (1 # 10 <= 1 # 2)%Q /\
  subsequence
    (cloud_free_rasters june_2018 [Finite 0; Finite (3 # 10); NaN] (Finite (1 # 10)))
    (cloud_free_rasters june_2018 [Finite 0; Finite (3 # 10); NaN] (Finite (1 # 2))).
Proof.
  assert (H : (1 # 10 <= 1 # 2)%Q) by (vm_compute; discriminate).
  split; [exact H|].
  exact (proj1 (cloud_lists_monotone june_2018
                  [Finite 0; Finite (3 # 10); NaN] _ _ H)).
Defined.

(** ** Grids of images *)

Section GridFacts.
Variable read_raster : Raster -> option Geometry -> result ndarray.
Variable geom : Geometry.

Lemma plot_grid_fits (N per_row : Z) (rasters : list Raster) :
  0 < per_row <= N ->
  (forall r, In r rasters -> exists ar, read_raster r (Some geom) = Ok ar) ->
  plot_grid read_raster geom N per_row rasters
  = Ok (map (fun ir => (fst ir + 1, snd ir)) (enumerate rasters)).
Proof.
  intros Hper Hread. unfold plot_grid. apply for_each_map.
  intros [i r] Hin. apply enumerate_In in Hin as [Hi Hr].
  pose proof (math_ceil_div_ge (Z.of_nat (List.length rasters)) per_row
                ltac:(lia)) as Hge.
  pose proof (math_ceil_div_nonneg (Z.of_nat (List.length rasters)) per_row
                ltac:(lia) ltac:(lia)) as Hnn.
  unfold subplot.
  replace ((1 <=? i + 1) &&
           (i + 1 <=? math_ceil_div (Z.of_nat (List.length rasters)) per_row * N))
    with true.
  - cbn [bind]. destruct (Hread r Hr) as [ar ->]. reflexivity.
  - symmetry. apply andb_true_iff. rewrite !Z.leb_le. split; [lia | nia].
Qed.

Lemma fold_min_spec (l : list Z) (x : Z) :
  In (fold_left Z.min l x) (x :: l) /\
  forall y, In y (x :: l) -> fold_left Z.min l x <= y.
Proof.
  revert x. induction l as [|z l IH]; intros x.
  - cbn. split; [auto | intros y [<-|[]]; lia].
  - cbn [fold_left]. destruct (IH (Z.min x z)) as [Hin Hle]. split.
    + destruct Hin as [Hin|Hin]; [|right; now right].
      destruct (Z.min_spec x z) as [[_ E]|[_ E]]; rewrite E in Hin |- *.
      * now left.
      * right; now left.
    + intros y [<-|[<-|Hy]].
      * specialize (Hle (Z.min x z) (or_introl eq_refl)). lia.
      * specialize (Hle (Z.min x z) (or_introl eq_refl)). lia.
      * apply Hle. now right.
Qed.

Lemma py_min_spec (l : list Z) (m : Z) :
  py_min l = Ok m -> In m l /\ forall y, In y l -> m <= y.
Proof.
  destruct l as [|x l]; [discriminate|].
  cbn [py_min]. intros E. injection E as <-. apply fold_min_spec.
Qed.

Lemma imagery_iterations_In (runs : list (list Raster)) (m i : Z)
  (r : list Raster) :
  In (i, r) (imagery_iterations runs m) ->
  In i (py_range 0 m 3) /\ In r runs.
Proof.
  unfold imagery_iterations. rewrite in_flat_map.
  intros (i' & Hi & Hr). apply in_map_iff in Hr as (r' & E & Hr).
  injection E as <- <-. auto.
Qed.

Lemma imagery_iterations_length (runs : list (list Raster)) (m : Z) :
  List.length (imagery_iterations runs m)
  = (List.length (py_range 0 m 3) * List.length runs)%nat.
Proof.
  unfold imagery_iterations.
  induction (py_range 0 m 3) as [|i l IH]; [reflexivity|].
  cbn [flat_map List.length]. rewrite length_app, length_map, IH. lia.
Qed.

Lemma imagery_loop_spec (iterations : list (Z * list Raster)) :
  (forall i r,
      In (i, r) iterations ->
      exists s2, getitem r i = Ok s2 /\
                 exists ar, read_raster s2 (Some geom) = Ok ar) ->
  forall plot_idx,
    1 <= plot_idx ->
    (plot_idx + Z.of_nat (List.length iterations) <= 31 ->
     exists panels,
       imagery_loop read_raster geom iterations plot_idx = Ok panels /\
       map fst panels
       = map Z.of_nat (seq (Z.to_nat plot_idx) (List.length iterations)) /\
       Forall2 (fun it p => getitem (snd it) (fst it) = Ok (snd p))
               iterations panels) /\
    (iterations <> [] ->
     31 < plot_idx + Z.of_nat (List.length iterations) ->
     imagery_loop read_raster geom iterations plot_idx
     = Raise "ValueError"%string).
Proof.
  induction iterations as [|[i r] its IH]; intros Hok idx Hidx.
  - split; [|congruence].
    intros _. exists []. repeat split; constructor.
  - destruct (Hok i r (or_introl eq_refl)) as (s2 & Hget & ar & Hread).
    destruct (IH (fun i' r' H => Hok i' r' (or_intror H)) (idx + 1)
                ltac:(lia)) as [IHok IHfail].
    cbn [imagery_loop List.length]. rewrite Hget. cbn [bind].
    rewrite Hread. cbn [bind]. unfold subplot. change (6 * 5) with 30.
    replace (1 <=? idx) with true by (symmetry; apply Z.leb_le; lia).
    cbn [andb]. split.
    + intros Hfit.
      replace (idx <=? 30) with true by (symmetry; apply Z.leb_le; lia).
      cbn [bind]. destruct IHok as (panels & Hp & Hfst & HF2); [lia|].
      rewrite Hp. cbn [bind]. exists ((idx, s2) :: panels).
      split; [reflexivity|]. split.
      * cbn [map fst seq]. rewrite Hfst.
        replace (Z.to_nat (idx + 1)) with (S (Z.to_nat idx)) by lia.
        f_equal. lia.
      * constructor; [exact Hget | exact HF2].
    + intros _ Hover. destruct (Z.leb_spec idx 30) as [Hle|Hgt].
      * cbn [bind]. rewrite IHfail; [reflexivity| |lia].
        destruct its; [cbn [List.length] in Hover; lia | discriminate].
      * reflexivity.
Qed.

End GridFacts.

(** X7: in the grids of the cloud-cover cells (6 columns, the rows computed
    from 4 images per row) and of the Sentinel cells (6 per row), no subplot
    index falls outside the grid: when the rasters can be read, every raster
    is drawn, in order, in the cells 1, 2, ... *)
Theorem image_grids_fit (read_raster : Raster -> option Geometry -> result ndarray)
  (geom : Geometry) (rasters : list Raster) :
  (forall r, In r rasters -> exists ar, read_raster r (Some geom) = Ok ar) ->
  cloud_grid read_raster geom rasters
  = Ok (map (fun ir => (fst ir + 1, snd ir)) (enumerate rasters)) /\
  sentinel_grid read_raster geom rasters
  = Ok (map (fun ir => (fst ir + 1, snd ir)) (enumerate rasters)).
Proof.
  intros Hread. unfold cloud_grid, sentinel_grid.
  split; apply plot_grid_fits; try exact Hread; lia.
Qed.

Lemma image_grids_fit_witness :
  (forall r, In r june_2018 ->
             exists ar, (fun _ _ => Ok (block_mask 1 1 0)) r (Some (Point 0 0))
                        = Ok ar) /\
  cloud_grid (fun _ _ => Ok (block_mask 1 1 0)) (Point 0 0) june_2018
  = Ok (map (fun ir => (fst ir + 1, snd ir)) (enumerate june_2018)).
Proof.
  assert (H : forall r, In r june_2018 ->
                        exists ar, (fun (_ : Raster) (_ : option Geometry) =>
                                      Ok (block_mask 1 1 0)) r (Some (Point 0 0))
                                   = Ok ar)
    by (intros r _; eexists; reflexivity).
  split; [exact H|].
  exact (proj1 (image_grids_fit _ _ _ H)).
Defined.

(** X8: in the available-imagery cell no index into a run's rasters is out
    of range, since the loop stops at the length of the shortest run; it
    draws one panel per run for every third raster, in the cells 1, 2, ...
    of the 6 x 5 grid, and raises [ValueError] at the 31st panel when the
    shortest run has more than 18 rasters. *)
Theorem available_imagery_panels
  (read_raster : Raster -> option Geometry -> result ndarray)
  (geom : Geometry) (runs : list (list Raster)) (m : Z) :
  py_min (map (fun r => Z.of_nat (List.length r)) runs) = Ok m ->
  (forall r s2, In r runs -> In s2 r ->
                exists ar, read_raster s2 (Some geom) = Ok ar) ->
  Z.of_nat (List.length (imagery_iterations runs m))
  = Z.of_nat (List.length runs) * ((m + 2) / 3) /\
  ((List.length (imagery_iterations runs m) <= 30)%nat ->
   exists panels,
     available_imagery read_raster geom runs = Ok panels /\
     map fst panels
     = map Z.of_nat (seq 1 (List.length (imagery_iterations runs m))) /\
     Forall2 (fun it p => getitem (snd it) (fst it) = Ok (snd p))
             (imagery_iterations runs m) panels) /\
  ((30 < List.length (imagery_iterations runs m))%nat ->
   available_imagery read_raster geom runs = Raise "ValueError"%string).
Proof.
  intros Hmin Hread.
  destruct (py_min_spec _ _ Hmin) as [Hm_in Hm_le].
  assert (Hm0 : 0 <= m).
  { apply in_map_iff in Hm_in as (r & <- & _). lia. }
  assert (Hok : forall i r,
             In (i, r) (imagery_iterations runs m) ->
             exists s2, getitem r i = Ok s2 /\
                        exists ar, read_raster s2 (Some geom) = Ok ar).
  { intros i r Hin. apply imagery_iterations_In in Hin as [Hi Hr].
    apply py_range_In in Hi as [Hi _]; [|lia].
    assert (Hlen : m <= Z.of_nat (List.length r))
      by (apply Hm_le, in_map_iff; eauto).
    destruct (getitem_in_range r i ltac:(lia)) as (s2 & Hget & Hs2).
    exists s2. split; [exact Hget | eauto]. }
  destruct (imagery_loop_spec read_raster geom _ Hok 1 ltac:(lia))
    as [Hfit Hover].
  unfold available_imagery. rewrite Hmin. cbn [bind].
  split; [|split].
  - rewrite imagery_iterations_length, py_range_length.
    replace (m - 0 + 3 - 1) with (m + 2) by ring.
    assert (0 <= (m + 2) / 3) by (apply Z.div_pos; lia).
    lia.
  - intros Hle. apply Hfit. lia.
  - intros Hgt. apply Hover; [|lia].
    destruct (imagery_iterations runs m);
      [cbn [List.length] in Hgt; lia | discriminate].
Qed.

Lemma available_imagery_panels_witness :
  py_min (map (fun r => Z.of_nat (List.length r)) [june_2018; june_2018])
  = Ok 3 /\
  exists panels,
    available_imagery (fun _ _ => Ok (block_mask 1 1 0)) (Point 0 0)
                      [june_2018; june_2018] = Ok panels /\
    map fst panels = [1; 2].
Proof.
  assert (Hmin : py_min (map (fun r => Z.of_nat (List.length r))
                             [june_2018; june_2018]) = Ok 3) by reflexivity.
  split; [exact Hmin|].
  destruct (available_imagery_panels
              (fun _ _ => Ok (block_mask 1 1 0)) (Point 0 0)
              [june_2018; june_2018] 3 Hmin
              (fun r s2 _ _ => ex_intro _ (block_mask 1 1 0) eq_refl))
    as (_ & Hfit & _).
  destruct (Hfit ltac:(vm_compute; lia)) as (panels & Hp & Hfst & _).
  exists panels. split; [exact Hp | exact Hfst].
Defined.

(** ** Daily imagery *)

Lemma Forall2_weaken_In {A B : Type} (P Q : A -> B -> Prop)
  (l : list A) (l' : list B) :
  (forall a b, In a l -> P a b -> Q a b) ->
  Forall2 P l l' -> Forall2 Q l l'.
Proof.
  intros H HF. induction HF as [|a b l l' Hab _ IH]; constructor.
  - apply H; [now left | exact Hab].
  - apply IH. intros a' b' Ha'. apply H. now right.
Qed.

Section DailyFacts.
Variable read_raster : Raster -> option Geometry -> result ndarray.
Variable geom : Geometry.

Lemma subplot_row (i : Z) : 1 <= i <= 6 -> subplot 1 6 i = Ok tt.
Proof.
  intros Hi. unfold subplot. change (1 * 6) with 6.
  replace (1 <=? i) with true by (symmetry; apply Z.leb_le; lia).
  replace (i <=? 6) with true by (symmetry; apply Z.leb_le; lia).
  reflexivity.
Qed.

Lemma match_raster_In (r : list Raster) (ref_date : Z) (x : Raster) :
  In x (match_raster r ref_date) -> In x r.
Proof. unfold match_raster. intros H. now apply filter_In in H. Qed.

Lemma daily_panels_spec (r : list Raster) (rgb_idx : list Z) (days : list Z) :
  (forall i, In i days -> 1 <= i <= 6) ->
  (forall x, In x r -> exists ar, read_raster x (Some geom) = Ok ar) ->
  forall k,
    (forall i, In i days -> match_raster r (date 2018 6 (i + 10)) = [] ->
               exists nd, no_data k = Some nd) ->
    exists imgs k',
      daily_panels read_raster geom r rgb_idx days k = Ok (imgs, k') /\
      no_data k' = no_data k /\
      Forall2
        (fun i img =>
           (exists first rest ar,
               match_raster r (date 2018 6 (i + 10)) = first :: rest /\
               read_raster first (Some geom) = Ok ar /\
               img = Rendered ar rgb_idx) \/
           (match_raster r (date 2018 6 (i + 10)) = [] /\
            no_data k = Some img))
        days imgs /\
      (match_ar k <> None -> match_ar k' <> None) /\
      (days <> [] ->
       (forall i, In i days -> match_raster r (date 2018 6 (i + 10)) <> []) ->
       match_ar k' = Some (last imgs (Rendered [] []))).
Proof.
  intros Hdays Hread.
  induction days as [|i days IH]; intros k Hnd.
  - exists [], k. cbn [daily_panels]. repeat split; try constructor; congruence.
  - assert (Hi : 1 <= i <= 6) by (apply Hdays; now left).
    assert (Hdays' : forall j, In j days -> 1 <= j <= 6)
      by (intros j Hj; apply Hdays; now right).
    specialize (IH Hdays').
    cbn [daily_panels]. unfold daily_panel. rewrite (subplot_row i Hi).
    cbn [bind].
    destruct (match_raster r (date 2018 6 (i + 10))) as [|first rest] eqn:E.
    + destruct (Hnd i (or_introl eq_refl) E) as [nd Hk].
      destruct (IH k (fun j Hj => Hnd j (or_intror Hj)))
        as (imgs & k' & Hrun & Hno & HF & Hbound & _).
      rewrite Hk in Hno, HF |- *. cbn [lookup_name bind].
      rewrite Hrun. cbn [bind]. exists (nd :: imgs), k'.
      split; [reflexivity|]. split; [exact Hno|]. split.
      * constructor; [right; rewrite E; auto | exact HF].
      * split; [exact Hbound|].
        intros _ Hall. exfalso. apply (Hall i (or_introl eq_refl)), E.
    + assert (Hfirst : In first r).
      { apply (match_raster_In r (date 2018 6 (i + 10))). rewrite E. now left. }
      destruct (Hread first Hfirst) as [ar Har]. rewrite Har. cbn [bind].
      destruct (IH (mkKernel (Some (Rendered ar rgb_idx)) (no_data k))
                   (fun j Hj => Hnd j (or_intror Hj)))
        as (imgs & k' & Hrun & Hno & HF & Hbound & Hlast).
      rewrite Hrun. cbn [bind]. exists (Rendered ar rgb_idx :: imgs), k'.
      split; [reflexivity|]. split; [exact Hno|]. split.
      * constructor; [|exact HF].
        left. exists first, rest, ar. rewrite E. auto.
      * split; [intros _; apply Hbound; discriminate|].
        intros _ Hall. destruct days as [|j days].
        -- inversion HF; subst. cbn [daily_panels] in Hrun.
           injection Hrun as <-. reflexivity.
        -- rewrite Hlast; [|discriminate|intros l Hl; apply Hall; now right].
           inversion HF; subst. reflexivity.
Qed.

Lemma daily_panels_unbound (r : list Raster) (rgb_idx : list Z)
  (days : list Z) :
  (forall i, In i days -> 1 <= i <= 6) ->
  (forall x, In x r -> exists ar, read_raster x (Some geom) = Ok ar) ->
  forall k,
    no_data k = None ->
    (exists i, In i days /\ match_raster r (date 2018 6 (i + 10)) = []) ->
    daily_panels read_raster geom r rgb_idx days k = Raise "NameError"%string.
Proof.
  intros Hdays Hread.
  induction days as [|i days IH]; intros k Hk (i0 & Hi0 & Hmiss);
    [contradiction|].
  assert (Hi : 1 <= i <= 6) by (apply Hdays; now left).
  cbn [daily_panels]. unfold daily_panel. rewrite (subplot_row i Hi).
  cbn [bind].
  destruct (match_raster r (date 2018 6 (i + 10))) as [|first rest] eqn:E.
  - rewrite Hk. reflexivity.
  - assert (Hfirst : In first r).
    { apply (match_raster_In r (date 2018 6 (i + 10))). rewrite E. now left. }
    destruct (Hread first Hfirst) as [ar Har]. rewrite Har. cbn [bind].
    rewrite IH; [reflexivity| |exact Hk|].
    + intros j Hj. apply Hdays. now right.
    + exists i0. split; [|exact Hmiss].
      destruct Hi0 as [<-|Hi0]; [congruence | exact Hi0].
Qed.

Lemma june_days (i : Z) : In i (py_range 1 7 1) -> 1 <= i <= 6.
Proof. intros H. apply py_range_In in H; lia. Qed.

End DailyFacts.

(** X9: run on a kernel where [no_data] is not yet bound, the daily-imagery
    cell stops with [NameError] as soon as one of the six days from 11 to 16
    June 2018 has no SpaceEye raster: the blank image it would show is only
    bound at the end of the first figure. *)
Theorem daily_imagery_fresh_kernel
  (read_raster : Raster -> option Geometry -> result ndarray)
  (geom : Geometry) (se s2 : list Raster) (k : Kernel) :
  (forall x, In x se -> exists ar, read_raster x (Some geom) = Ok ar) ->
  no_data k = None ->
  (exists i, In i (py_range 1 7 1) /\
             match_raster se (date 2018 6 (i + 10)) = []) ->
  daily_imagery read_raster geom se s2 k = Raise "NameError"%string.
Proof.
  intros Hread Hk Hmiss. unfold daily_imagery, daily_figure.
  rewrite (daily_panels_unbound read_raster geom se [2; 1; 0] _
             june_days Hread k Hk Hmiss).
  reflexivity.
Qed.

Lemma daily_imagery_fresh_kernel_witness :
  (forall x, In x june_2018 ->
             exists ar, (fun (_ : Raster) (_ : option Geometry) =>
                           Ok (block_mask 1 1 0)) x (Some (Point 0 0)) = Ok ar) /\
  no_data (mkKernel None None) = None /\
  (exists i, In i (py_range 1 7 1) /\
             match_raster june_2018 (date 2018 6 (i + 10)) = []) /\
  daily_imagery (fun _ _ => Ok (block_mask 1 1 0)) (Point 0 0)
                june_2018 june_2018 (mkKernel None None)
  = Raise "NameError"%string.
Proof.
  assert (Hread : forall x, In x june_2018 ->
             exists ar, (fun (_ : Raster) (_ : option Geometry) =>
                           Ok (block_mask 1 1 0)) x (Some (Point 0 0)) = Ok ar)
    by (intros x _; eexists; reflexivity).
  assert (Hmiss : exists i, In i (py_range 1 7 1) /\
                            match_raster june_2018 (date 2018 6 (i + 10)) = [])
    by (exists 2; split; [right; now left | reflexivity]).
  split; [exact Hread|]. split; [reflexivity|]. split; [exact Hmiss|].
  exact (daily_imagery_fresh_kernel _ _ june_2018 june_2018
           (mkKernel None None) Hread eq_refl Hmiss).
Defined.

(** X10: when SpaceEye has a raster on each of the six days and the rasters
    can be read, the cell completes whatever the kernel held: the first
    figure shows, for each day, the first SpaceEye raster of that day; the
    second shows the first Sentinel-2 raster of the day or, on a day without
    one, the blank copy of the last SpaceEye image; [no_data] is bound
    afterwards. *)
Theorem daily_imagery_complete
  (read_raster : Raster -> option Geometry -> result ndarray)
  (geom : Geometry) (se s2 : list Raster) (k : Kernel) :
  (forall x, In x se \/ In x s2 ->
             exists ar, read_raster x (Some geom) = Ok ar) ->
  (forall i, In i (py_range 1 7 1) ->
             match_raster se (date 2018 6 (i + 10)) <> []) ->
  exists imgs1 imgs2 k',
    daily_imagery read_raster geom se s2 k = Ok (imgs1, imgs2, k') /\
    Forall2
      (fun i img =>
         exists first rest ar,
           match_raster se (date 2018 6 (i + 10)) = first :: rest /\
           read_raster first (Some geom) = Ok ar /\
           img = Rendered ar [2; 1; 0])
      (py_range 1 7 1) imgs1 /\
    Forall2
      (fun i img =>
         (exists first rest ar,
             match_raster s2 (date 2018 6 (i + 10)) = first :: rest /\
             read_raster first (Some geom) = Ok ar /\
             img = Rendered ar [3; 2; 1]) \/
         (match_raster s2 (date 2018 6 (i + 10)) = [] /\
          img = ZerosLike (last imgs1 (Rendered [] []))))
      (py_range 1 7 1) imgs2 /\
    exists img, no_data k' = Some (ZerosLike img).
Proof.
  intros Hread Hall.
  destruct (daily_panels_spec read_raster geom se [2; 1; 0] (py_range 1 7 1)
              june_days (fun x Hx => Hread x (or_introl Hx)) k)
    as (imgs1 & k1 & Hrun1 & Hno1 & HF1 & _ & Hlast1).
  { intros i Hi Hmiss. exfalso. exact (Hall i Hi Hmiss). }
  specialize (Hlast1 ltac:(discriminate) Hall).
  set (blank := ZerosLike (last imgs1 (Rendered [] []))).
  destruct (daily_panels_spec read_raster geom s2 [3; 2; 1] (py_range 1 7 1)
              june_days (fun x Hx => Hread x (or_intror Hx))
              (mkKernel (match_ar k1) (Some blank)))
    as (imgs2 & k2 & Hrun2 & Hno2 & HF2 & Hbound2 & _).
  { intros i _ _. exists blank. reflexivity. }
  cbn [match_ar no_data] in Hno2, Hbound2, HF2.
  assert (Hm2 : exists img, match_ar k2 = Some img).
  { destruct (match_ar k2) as [img|]; [eauto|].
    exfalso. apply Hbound2; [rewrite Hlast1; discriminate | reflexivity]. }
  destruct Hm2 as [img2 Hm2].
  exists imgs1, imgs2, (mkKernel (match_ar k2) (Some (ZerosLike img2))).
  split.
  - unfold daily_imagery, daily_figure. rewrite Hrun1. cbn [bind].
    rewrite Hlast1. cbn [lookup_name bind]. rewrite <- Hlast1.
    fold blank. rewrite Hrun2. cbn [bind]. rewrite Hm2. reflexivity.
  - split.
    + eapply Forall2_weaken_In; [|exact HF1].
      intros i img Hi [H|[Hmiss _]]; [exact H|].
      exfalso. exact (Hall i Hi Hmiss).
    + split; [|eexists; reflexivity].
      eapply Forall2_weaken_In; [|exact HF2].
      intros i img _ [H|[Hmiss Himg]]; [now left|].
      right. split; [exact Hmiss|]. now injection Himg as <-.
Qed.

Lemma daily_imagery_complete_witness :
  (forall x, In x june_daily \/ In x june_2018 ->
             exists ar, (fun (_ : Raster) (_ : option Geometry) =>
                           Ok (block_mask 1 1 0)) x (Some (Point 0 0)) = Ok ar) /\
  (forall i, In i (py_range 1 7 1) ->
             match_raster june_daily (date 2018 6 (i + 10)) <> []) /\
  exists imgs1 imgs2 k',
    daily_imagery (fun _ _ => Ok (block_mask 1 1 0)) (Point 0 0)
                  june_daily june_2018 (mkKernel None None)
    = Ok (imgs1, imgs2, k').
Proof.
  assert (Hread : forall x, In x june_daily \/ In x june_2018 ->
             exists ar, (fun (_ : Raster) (_ : option Geometry) =>
                           Ok (block_mask 1 1 0)) x (Some (Point 0 0)) = Ok ar)
    by (intros x _; eexists; reflexivity).
  assert (Hall : forall i, In i (py_range 1 7 1) ->
                           match_raster june_daily (date 2018 6 (i + 10)) <> []).
  { intros i Hi. change (py_range 1 7 1) with [1; 2; 3; 4; 5; 6] in Hi.
    cbn [In] in Hi.
    destruct Hi as [<-|[<-|[<-|[<-|[<-|[<-|[]]]]]]]; vm_compute; discriminate. }
  split; [exact Hread|]. split; [exact Hall|].
  destruct (daily_imagery_complete _ _ june_daily june_2018
              (mkKernel None None) Hread Hall)
    as (imgs1 & imgs2 & k' & Hrun & _).
  exists imgs1, imgs2, k'. exact Hrun.
Defined.

(** ** Cloud inpainting *)

Lemma nearest_In_minimal (t : Z) (collection : list Raster) :
  collection <> [] ->
  exists r,
    nearest t collection = Ok r /\ In r collection /\
    forall x, In x collection -> time_distance t r <= time_distance t x.
Proof.
  intros Hne.
  destruct (nearest_first_minimal t collection Hne)
    as (pre & r & post & Hl & Hn & Hpre & Hpost).
  exists r. split; [exact Hn|]. rewrite Hl. split.
  - apply in_or_app. right. now left.
  - intros x Hx. apply in_app_or in Hx.
    destruct Hx as [Hx|[<-|Hx]].
    + specialize (Hpre _ Hx). lia.
    + lia.
    + now apply Hpost.
Qed.

(** X11: the inpainting cells go through every second Sentinel-2 raster in
    order of start time; when the SpaceEye collection is not empty and the
    rasters can be read, each is paired with a SpaceEye raster at the
    smallest time distance from its start; when the SpaceEye collection is
    empty the first iteration raises [IndexError], before anything is
    read. *)
Theorem inpainting_pairs
  (read_raster : Raster -> option Geometry -> result ndarray)
  (geom : Geometry) (rasters se : list Raster) :
  (se <> [] ->
   (forall x, In x rasters -> exists ar, read_raster x (Some geom) = Ok ar) ->
   (forall x, In x se -> exists ar, read_raster x None = Ok ar) ->
   exists pairs,
     inpainting read_raster geom rasters se = Ok pairs /\
     map fst pairs = sort_by_time (slice_step 2 rasters) /\
     Forall (fun p =>
               In (snd p) se /\
               forall x, In x se ->
                         time_distance (start_time (fst p)) (snd p)
                         <= time_distance (start_time (fst p)) x)
            pairs) /\
  (rasters <> [] ->
   inpainting read_raster geom rasters [] = Raise "IndexError"%string).
Proof.
  split.
  - intros Hne Hread Hread_se. unfold inpainting.
    destruct (for_each_Forall2
                (fun s2 =>
                   bind (se_raster s2 se) (fun nearest_se =>
                   bind (read_raster s2 (Some geom)) (fun _ =>
                   bind (read_raster nearest_se None) (fun _ =>
                   Ok (s2, nearest_se)))))
                (fun s2 p =>
                   fst p = s2 /\ In (snd p) se /\
                   forall x, In x se ->
                             time_distance (start_time s2) (snd p)
                             <= time_distance (start_time s2) x)
                (sorted start_time (slice_step 2 rasters)))
      as (pairs & Hrun & HF).
    { intros s2 Hs2.
      apply (Permutation_in _ (sorted_perm start_time _)) in Hs2.
      apply stride_from_In in Hs2.
      destruct (nearest_In_minimal (start_time s2) se Hne)
        as (r & Hn & Hr & Hmin).
      destruct (Hread s2 Hs2) as [ar Har].
      destruct (Hread_se r Hr) as [ar' Har'].
      exists (s2, r). unfold se_raster. rewrite Hn. cbn [bind].
      rewrite Har. cbn [bind]. rewrite Har'. cbn [bind fst snd]. auto. }
    exists pairs. split; [exact Hrun|].
    unfold sort_by_time. clear Hrun.
    induction HF as [|s2 p l pairs (Hfst & Hin & Hmin) _ [IHmap IHall]].
    + split; constructor.
    + split.
      * cbn [map]. now rewrite Hfst, IHmap.
      * constructor; [|exact IHall]. rewrite Hfst. auto.
  - intros Hne. unfold inpainting.
    destruct (sorted start_time (slice_step 2 rasters)) as [|s2 rest] eqn:E.
    + exfalso. apply (slice_step_not_nil 2 rasters Hne).
      apply Permutation_nil. rewrite <- E. apply sorted_perm.
    + reflexivity.
Qed.

(** ** Time ranges and the focus region *)

Lemma days_before_month_june (y : Z) :
  days_before_month y 6 = 151 + (if is_leap y then 1 else 0).
Proof.
  unfold days_before_month, days_in_month.
  destruct (is_leap y); reflexivity.
Qed.

Lemma days_before_month_september (y : Z) :
  days_before_month y 9 = 243 + (if is_leap y then 1 else 0).
Proof.
  unfold days_before_month, days_in_month.
  destruct (is_leap y); reflexivity.
Qed.

Lemma days_before_year_step (y : Z) :
  364 <= days_before_year (y + 1) - days_before_year y.
Proof.
  unfold days_before_year. cbn zeta.
  replace (y + 1 - 1) with y by ring.
  pose proof (Z.div_le_mono (y - 1) y 4 ltac:(lia) ltac:(lia)).
  pose proof (Z.div_le_mono (y - 1) y 400 ltac:(lia) ltac:(lia)).
  assert (y / 100 <= (y - 1) / 100 + 1).
  { rewrite <- (Z.div_add (y - 1) 1 100) by lia.
    apply Z.div_le_mono; lia. }
  lia.
Qed.

(** X12: for every year, the range from 1 June to 1 September spans exactly
    92 days and ends before the range of the next year begins; the five
    ranges of the notebook are such ranges in increasing order, and the first
    one is the range of the first run. *)
Theorem summer_time_ranges (year : Z) :
  datetime year 9 1 - datetime year 6 1 = 92 * day /\
  datetime year 9 1 < datetime (year + 1) 6 1 /\
  Forall (fun tr => snd tr - fst tr = 92 * day) time_ranges /\
  StronglySorted (fun tr tr' => snd tr < fst tr') time_ranges /\
  nth_error time_ranges 0 = Some notebook_time_range.
Proof.
  split; [|split].
  - unfold datetime, ymd2ord, day.
    rewrite days_before_month_june, days_before_month_september.
    destruct (is_leap year); lia.
  - unfold datetime, ymd2ord.
    rewrite days_before_month_june, days_before_month_september.
    pose proof (days_before_year_step year).
    destruct (is_leap year), (is_leap (year + 1)); lia.
  - split; [|split].
    + repeat constructor.
    + repeat constructor.
    + reflexivity.
Qed.

Section FocusFacts.
Local Open Scope Q_scope.

Lemma polygon_bounds_ordered (vs : list (Q * Q)) (env : Envelope) :
  minx env <= maxx env /\ miny env <= maxy env ->
  minx (fold_left
          (fun env p =>
             mkEnvelope (Qmin (minx env) (fst p)) (Qmin (miny env) (snd p))
                        (Qmax (maxx env) (fst p)) (Qmax (maxy env) (snd p)))
          vs env)
  <= maxx (fold_left
             (fun env p =>
                mkEnvelope (Qmin (minx env) (fst p)) (Qmin (miny env) (snd p))
                           (Qmax (maxx env) (fst p)) (Qmax (maxy env) (snd p)))
             vs env) /\
  miny (fold_left
          (fun env p =>
             mkEnvelope (Qmin (minx env) (fst p)) (Qmin (miny env) (snd p))
                        (Qmax (maxx env) (fst p)) (Qmax (maxy env) (snd p)))
          vs env)
  <= maxy (fold_left
             (fun env p =>
                mkEnvelope (Qmin (minx env) (fst p)) (Qmin (miny env) (snd p))
                           (Qmax (maxx env) (fst p)) (Qmax (maxy env) (snd p)))
             vs env).
Proof.
  revert env. induction vs as [|p vs IH]; intros env Henv; [exact Henv|].
  cbn [fold_left]. apply IH. cbn [minx miny maxx maxy].
  destruct Henv. split; qminmax; lra.
Qed.

(** The bounds of a geometry are an envelope with its corners in order. *)
Lemma bounds_ordered (g : Geometry) :
  minx (bounds g) <= maxx (bounds g) /\ miny (bounds g) <= maxy (bounds g).
Proof.
  destruct g as [x y|x0 y0 x1 y1|v vs]; cbn [bounds].
  - cbn [minx miny maxx maxy]. split; apply Qle_refl.
  - cbn [minx miny maxx maxy]. split; qminmax; lra.
  - apply polygon_bounds_ordered. cbn [minx miny maxx maxy].
    split; apply Qle_refl.
Qed.

Lemma min4_glb (z p q r s : Q) :
  z <= p -> z <= q -> z <= r -> z <= s -> z <= min4 p q r s.
Proof. intros. unfold min4. qminmax; lra. Qed.

Lemma max4_lub (z p q r s : Q) :
  p <= z -> q <= z -> r <= z -> s <= z -> max4 p q r s <= z.
Proof. intros. unfold max4. qminmax; lra. Qed.

(** The pixel bounds grow with the envelope. *)
Lemma pixel_bounds_monotone (inner outer : Envelope) (t : Affine) :
  minx inner <= maxx inner -> miny inner <= maxy inner ->
  envelope_within inner outer ->
  col_lo (pixel_bounds outer t) <= col_lo (pixel_bounds inner t) /\
  col_hi (pixel_bounds inner t) <= col_hi (pixel_bounds outer t) /\
  row_lo (pixel_bounds outer t) <= row_lo (pixel_bounds inner t) /\
  row_hi (pixel_bounds inner t) <= row_hi (pixel_bounds outer t).
Proof.
  intros Hx Hy (Hx0 & Hx1 & Hy0 & Hy1).
  assert (C1 : in_envelope (minx inner) (miny inner) outer)
    by (unfold in_envelope; repeat split; lra).
  assert (C2 : in_envelope (minx inner) (maxy inner) outer)
    by (unfold in_envelope; repeat split; lra).
  assert (C3 : in_envelope (maxx inner) (miny inner) outer)
    by (unfold in_envelope; repeat split; lra).
  assert (C4 : in_envelope (maxx inner) (maxy inner) outer)
    by (unfold in_envelope; repeat split; lra).
  apply (envelope_in_pixel_bounds _ t) in C1 as (A1 & B1 & D1 & E1).
  apply (envelope_in_pixel_bounds _ t) in C2 as (A2 & B2 & D2 & E2).
  apply (envelope_in_pixel_bounds _ t) in C3 as (A3 & B3 & D3 & E3).
  apply (envelope_in_pixel_bounds _ t) in C4 as (A4 & B4 & D4 & E4).
  unfold pixel_bounds at 2 3 6 7. cbn [col_lo col_hi row_lo row_hi].
  repeat split;
    first [apply min4_glb; assumption | apply max4_lub; assumption].
Qed.

End FocusFacts.

Lemma resolve_window_monotone (g1 g2 : Geometry) (t : Affine)
  (size : RasterSize) (w1 : PixelWindow) :
  envelope_within (bounds g1) (bounds g2) ->
  resolve_window g1 t size = Ok w1 ->
  exists w2, resolve_window g2 t size = Ok w2 /\ window_within w1 w2.
Proof.
  intros Hin H1.
  destruct (bounds_ordered g1) as [Hx Hy].
  destruct (pixel_bounds_monotone _ _ t Hx Hy Hin) as (Hc0 & Hc1 & Hr0 & Hr1).
  apply Qfloor_resp_le in Hc0, Hr0. apply Qceiling_resp_le in Hc1, Hr1.
  apply resolve_window_Ok in H1 as [-> Hne].
  assert (Hwithin :
           window_within
             (clamp (round_outward (pixel_bounds (bounds g1) t)) size)
             (clamp (round_outward (pixel_bounds (bounds g2) t)) size)).
  { unfold window_within, clamp, round_outward.
    cbn [row_start row_stop col_start col_stop]. lia. }
  exists (clamp (round_outward (pixel_bounds (bounds g2) t)) size).
  split; [|exact Hwithin].
  destruct (resolve_window_cases g2 t size) as [[He _]|[_ H2]]; [|exact H2].
  exfalso. revert Hne He Hwithin.
  unfold is_empty, window_within.
  rewrite orb_false_iff, orb_true_iff, !Z.leb_gt, !Z.leb_le. lia.
Qed.

Lemma focus_geom_within_iff (proj_geom : Geometry) :
  (3000 <= envelope_width (bounds proj_geom) /\
   4000 <= envelope_height (bounds proj_geom))%Q ->
  envelope_within (bounds (focus_geom proj_geom)) (bounds proj_geom).
Proof.
  destruct (bounds_ordered proj_geom) as [Hx Hy].
  unfold focus_geom, envelope_within, envelope_width, envelope_height.
  cbn [bounds minx miny maxx maxy].
  intros [Hw Hh]. revert Hw Hh Hx Hy. qminmax; intros; repeat split; lra.
Qed.

(** X14: when the envelope of the projected geometry is at least 3000 units
    wide and 4000 units high, the window resolved for the focus region lies
    within the window resolved for the whole geometry, on any raster: the
    close-ups show a part of the image of the region. *)
Theorem focus_window_within (proj_geom : Geometry) (t : Affine)
  (size : RasterSize) (w : PixelWindow) :
  (3000 <= envelope_width (bounds proj_geom))%Q ->
  (4000 <= envelope_height (bounds proj_geom))%Q ->
  resolve_window (focus_geom proj_geom) t size = Ok w ->
  exists w', resolve_window proj_geom t size = Ok w' /\ window_within w w'.
Proof.
  intros Hw Hh Hres.
  apply (resolve_window_monotone (focus_geom proj_geom) proj_geom t size w);
    [|exact Hres].
  apply focus_geom_within_iff. auto.
Qed.

Lemma focus_window_within_witness :
  (3000 <= envelope_width (bounds (Box 500000 9930000 505000 9936000)))%Q /\
  (4000 <= envelope_height (bounds (Box 500000 9930000 505000 9936000)))%Q /\
  resolve_window (focus_geom (Box 500000 9930000 505000 9936000))
                 scenario_transform scenario_size
  = Ok (mkWindow 6400 6800 302 502) /\
  exists w',
    resolve_window (Box 500000 9930000 505000 9936000)
                   scenario_transform scenario_size = Ok w' /\
    window_within (mkWindow 6400 6800 302 502) w'.
Proof.
  assert (Hw : (3000 <= envelope_width
                          (bounds (Box 500000 9930000 505000 9936000)))%Q)
    by (vm_compute; discriminate).
  assert (Hh : (4000 <= envelope_height
                          (bounds (Box 500000 9930000 505000 9936000)))%Q)
    by (vm_compute; discriminate).
  assert (Hres : resolve_window (focus_geom (Box 500000 9930000 505000 9936000))
                                scenario_transform scenario_size
                 = Ok (mkWindow 6400 6800 302 502)) by reflexivity.
  split; [exact Hw|]. split; [exact Hh|]. split; [exact Hres|].
  exact (focus_window_within _ _ _ _ Hw Hh Hres).
Defined.

(** ** Binary64 arithmetic *)

Section RoundingFacts.
Local Open Scope Q_scope.

Lemma Qred_inject_Z (z : Z) : Qred (inject_Z z) = inject_Z z.
Proof.
  pose proof (Qred_correct (inject_Z z)) as Heq.
  pose proof (gcd_Qred (inject_Z z)) as Hgcd.
  destruct (Qred (inject_Z z)) as [n d].
  unfold Qeq in Heq. cbn [Qnum Qden inject_Z] in Heq, Hgcd.
  assert (Hn : n = (Z.pos d * z)%Z) by lia.
  rewrite Hn, Z.gcd_comm, Z.gcd_mul_diag_l in Hgcd by lia.
  assert (d = 1%positive) by lia. subst d.
  unfold inject_Z. f_equal. lia.
Qed.

Lemma fl_proper (p q : Q) : p == q -> fl p = fl q.
Proof. intros H. unfold fl. now rewrite (Qred_complete p q H). Qed.

Lemma pow2_nonpos (e : Z) :
  (e <= 0)%Z -> pow2 e * inject_Z (2 ^ (- e)) == 1.
Proof.
  intros He. unfold pow2.
  assert (Hpos : (0 < 2 ^ (- e))%Z) by (apply Z.pow_pos_nonneg; lia).
  assert (Hq : ~ inject_Z (2 ^ (- e)) == 0).
  { intros H. unfold Qeq in H. cbn [Qnum Qden inject_Z] in H. lia. }
  destruct (Z.leb_spec 0 e) as [H0|Hneg].
  - assert (e = 0%Z) by lia. subst e. reflexivity.
  - field. exact Hq.
Qed.

Lemma round_half_even_int (x : Q) (m : Z) :
  x == inject_Z m -> round_half_even x = m.
Proof.
  intros Hx. unfold round_half_even. rewrite (floor_exact x m Hx).
  assert (Hlt : (x - inject_Z m ?= 1 # 2) = Lt)
    by (apply (proj1 (Qlt_alt (x - inject_Z m) (1 # 2))); lra).
  now rewrite Hlt.
Qed.

Lemma ilog2_int (z : Z) : (0 < z)%Z -> ilog2 (inject_Z z) = Z.log2 z.
Proof.
  intros Hz. unfold ilog2.
  change (Qnum (inject_Z z)) with z.
  change (Z.log2 (Z.pos (Qden (inject_Z z)))) with 0%Z. rewrite Z.sub_0_r.
  pose proof (Z.log2_nonneg z) as Hnn.
  destruct (Z.log2_spec z Hz) as [Hlo _].
  assert (Hle : Qle_bool (pow2 (Z.log2 z)) (inject_Z z) = true).
  { apply Qle_bool_iff. unfold pow2.
    replace (0 <=? Z.log2 z)%Z with true by (symmetry; apply Z.leb_le; lia).
    now rewrite <- Zle_Qle. }
  now rewrite Hle.
Qed.

(** The integers up to [2^53] are binary64 numbers. *)
Lemma fl_pos_int (z : Z) :
  (0 < z <= 2 ^ 53)%Z -> fl_pos (inject_Z z) == inject_Z z.
Proof.
  intros [Hz Hmax].
  destruct (Z.eq_dec z (2 ^ 53)) as [->|Hne]; [reflexivity|].
  unfold fl_pos. rewrite (ilog2_int z Hz).
  pose proof (Z.log2_nonneg z) as Hnn.
  assert (Hlog : (Z.log2 z < 53)%Z) by (apply Z.log2_lt_pow2; lia).
  replace (Z.max (-1074) (Z.log2 z - 52)) with (Z.log2 z - 52)%Z by lia.
  set (e := (Z.log2 z - 52)%Z).
  assert (He : (e <= 0)%Z) by (unfold e; lia).
  pose proof (pow2_nonpos e He) as Hpow.
  assert (Hnz : ~ pow2 e == 0).
  { intros H. rewrite H in Hpow. lra. }
  assert (Hdiv : inject_Z z / pow2 e == inject_Z (z * 2 ^ (- e))).
  { rewrite inject_Z_mult.
    setoid_replace (inject_Z z / pow2 e)
      with (inject_Z z * (pow2 e * inject_Z (2 ^ (- e))) / pow2 e)
      by (rewrite Hpow; field; exact Hnz).
    field. exact Hnz. }
  rewrite (round_half_even_int _ _ Hdiv), inject_Z_mult.
  setoid_replace (inject_Z z * inject_Z (2 ^ (- e)) * pow2 e)
    with (inject_Z z * (pow2 e * inject_Z (2 ^ (- e)))) by ring.
  rewrite Hpow. ring.
Qed.

Lemma fl_int (q : Q) (z : Z) :
  q == inject_Z z -> (0 <= z <= 2 ^ 53)%Z -> fl q = inject_Z z.
Proof.
  intros Hq [Hz Hmax]. rewrite (fl_proper _ _ Hq). unfold fl.
  rewrite Qred_inject_Z.
  destruct (Z.eq_dec z 0) as [->|Hne]; [reflexivity|].
  assert (Hpos : 0 < inject_Z z).
  { change 0 with (inject_Z 0). rewrite <- Zlt_Qlt. lia. }
  assert (Hcmp : (inject_Z z ?= 0) = Gt) by (apply (proj1 (Qgt_alt (inject_Z z) 0)); exact Hpos).
  rewrite Hcmp.
  rewrite (Qred_complete _ _ (fl_pos_int z ltac:(lia))).
  apply Qred_inject_Z.
Qed.

Lemma overflow_int (z : Z) :
  (0 <= z <= 2 ^ 53)%Z -> overflow (inject_Z z) = Number (inject_Z z).
Proof.
  intros [Hz Hmax]. unfold overflow.
  assert (Hbig : (2 ^ 53 < 2 ^ 1024)%Z) by (apply Z.pow_lt_mono_r; lia).
  change (pow2 1024) with (inject_Z (2 ^ 1024)).
  replace (Qle_bool (inject_Z (2 ^ 1024)) (inject_Z z)) with false.
  - replace (Qle_bool (inject_Z z) (- inject_Z (2 ^ 1024))) with false;
      [reflexivity|].
    symmetry. apply not_true_iff_false. rewrite Qle_bool_iff.
    rewrite <- inject_Z_opp, <- Zle_Qle. lia.
  - symmetry. apply not_true_iff_false. rewrite Qle_bool_iff.
    rewrite <- Zle_Qle. lia.
Qed.

End RoundingFacts.

(** The sum of two counts is exact as long as it stays within [2^53]. *)
Lemma fadd_ints (a b : Z) :
  0 <= a -> 0 <= b -> a + b <= 2 ^ 53 ->
  fadd (Number (inject_Z a)) (Number (inject_Z b)) = Number (inject_Z (a + b)).
Proof.
  intros Ha Hb Hab. unfold fadd.
  rewrite (fl_int _ (a + b)); [apply overflow_int; lia| |lia].
  now rewrite inject_Z_plus.
Qed.

(** ** The sum of numpy on counts *)

Lemma zsum_nonneg (zs : list Z) : Forall (fun z => 0 <= z) zs -> 0 <= zsum zs.
Proof. induction 1; cbn [zsum fold_right]; [lia | fold (zsum l); lia]. Qed.

Lemma zsum_app (l l' : list Z) : zsum (l ++ l') = zsum l + zsum l'.
Proof.
  induction l as [|z l IH]; [reflexivity|].
  cbn [app zsum fold_right]. fold (zsum (l ++ l')). fold (zsum l). lia.
Qed.

Lemma zsum_split (n : nat) (zs : list Z) :
  zsum (firstn n zs) + zsum (skipn n zs) = zsum zs.
Proof. now rewrite <- zsum_app, firstn_skipn. Qed.

Lemma zsum_perm (l l' : list Z) : Permutation l l' -> zsum l = zsum l'.
Proof.
  induction 1; cbn [zsum fold_right]; try fold (zsum l); try fold (zsum l');
    lia.
Qed.

Lemma ints_firstn (n : nat) (zs : list Z) :
  firstn n (ints zs) = ints (firstn n zs).
Proof. apply firstn_map. Qed.

Lemma ints_skipn (n : nat) (zs : list Z) :
  skipn n (ints zs) = ints (skipn n zs).
Proof. apply skipn_map. Qed.

Lemma ints_length (zs : list Z) : List.length (ints zs) = List.length zs.
Proof. apply length_map. Qed.

Lemma Forall_firstn_nonneg (n : nat) (zs : list Z) :
  Forall (fun z => 0 <= z) zs ->
  Forall (fun z => 0 <= z) (firstn n zs) /\
  Forall (fun z => 0 <= z) (skipn n zs).
Proof.
  intros H. rewrite <- (firstn_skipn n zs) in H.
  now apply Forall_app in H.
Qed.

Lemma fold_ints (zs : list Z) (acc : Z) :
  0 <= acc -> Forall (fun z => 0 <= z) zs -> acc + zsum zs <= 2 ^ 53 ->
  fold_left fadd (ints zs) (Number (inject_Z acc))
  = Number (inject_Z (acc + zsum zs)).
Proof.
  revert acc. induction zs as [|z zs IH]; intros acc Hacc Hnn Hmax.
  - cbn [ints map fold_left zsum fold_right]. now rewrite Z.add_0_r.
  - apply Forall_cons_iff in Hnn as [Hz Hnn].
    pose proof (zsum_nonneg zs Hnn) as Hs.
    cbn [zsum fold_right] in Hmax |- *. fold (zsum zs) in Hmax |- *.
    cbn [ints map fold_left]. fold (ints zs).
    rewrite fadd_ints by lia. rewrite IH by (assumption || lia).
    f_equal. f_equal. lia.
Qed.

Lemma add_lanes_ints (rs cs : list Z) :
  List.length cs = List.length rs ->
  Forall (fun z => 0 <= z) rs -> Forall (fun z => 0 <= z) cs ->
  zsum rs + zsum cs <= 2 ^ 53 ->
  exists zs,
    add_lanes (ints rs) (ints cs) = ints zs /\
    Forall (fun z => 0 <= z) zs /\
    zsum zs = zsum rs + zsum cs /\
    List.length zs = List.length rs.
Proof.
  revert cs. induction rs as [|r rs IH]; intros cs Hlen Hrs Hcs Hmax.
  - destruct cs; [|discriminate]. exists []. repeat split; constructor.
  - destruct cs as [|c cs]; [discriminate|].
    apply Forall_cons_iff in Hrs as [Hr Hrs].
    apply Forall_cons_iff in Hcs as [Hc Hcs].
    pose proof (zsum_nonneg rs Hrs). pose proof (zsum_nonneg cs Hcs).
    cbn [zsum fold_right] in Hmax. fold (zsum rs) (zsum cs) in Hmax.
    destruct (IH cs) as (zs & Hzs & Hnn & Hsum & Hl);
      [cbn [List.length] in Hlen; lia | assumption | assumption | lia |].
    exists (r + c :: zs). cbn [ints map add_lanes]. fold (ints rs) (ints cs).
    rewrite fadd_ints by lia. rewrite Hzs.
    repeat split.
    + constructor; [lia | exact Hnn].
    + cbn [zsum fold_right]. fold (zsum zs) (zsum rs) (zsum cs). lia.
    + cbn [List.length]. now rewrite Hl.
Qed.

Lemma unrolled_ints (n : nat) :
  forall body rs,
    (List.length body <= n)%nat ->
    List.length rs = 8%nat ->
    Forall (fun z => 0 <= z) rs -> Forall (fun z => 0 <= z) body ->
    zsum rs + zsum body <= 2 ^ 53 ->
    exists rs' rest,
      unrolled (ints rs) (ints body) = (ints rs', ints rest) /\
      List.length rs' = 8%nat /\
      Forall (fun z => 0 <= z) rs' /\ Forall (fun z => 0 <= z) rest /\
      zsum rs' + zsum rest = zsum rs + zsum body.
Proof.
  induction n as [|n IH]; intros body rs Hn Hlen Hrs Hbody Hmax.
  - destruct body; [|cbn [List.length] in Hn; lia].
    exists rs, []. repeat split; auto.
  - destruct body as [|c0 [|c1 [|c2 [|c3 [|c4 [|c5 [|c6 [|c7 rest]]]]]]]];
      try (eexists rs, _; repeat split; [reflexivity | auto ..]).
    assert (Hsplit : Forall (fun z => 0 <= z) [c0; c1; c2; c3; c4; c5; c6; c7] /\
                     Forall (fun z => 0 <= z) rest)
      by (apply (Forall_firstn_nonneg 8) in Hbody; exact Hbody).
    destruct Hsplit as [Hblock Hrest].
    assert (Hsum : zsum (c0 :: c1 :: c2 :: c3 :: c4 :: c5 :: c6 :: c7 :: rest)
                   = zsum [c0; c1; c2; c3; c4; c5; c6; c7] + zsum rest)
      by (exact (eq_sym (zsum_split 8 (c0 :: c1 :: c2 :: c3 :: c4 :: c5 :: c6 :: c7 :: rest)))).
    rewrite Hsum in Hmax |- *.
    pose proof (zsum_nonneg rest Hrest) as Hrest0.
    destruct (add_lanes_ints rs [c0; c1; c2; c3; c4; c5; c6; c7])
      as (zs & Hzs & Hnn & Hzsum & Hzlen);
      [now rewrite Hlen | assumption | assumption | lia |].
    destruct (IH rest zs) as (rs' & rest' & Hrun & Hl' & Hnn' & Hrest' & Hsum');
      [cbn [List.length] in Hn; lia | now rewrite Hzlen | assumption
      | assumption | lia |].
    exists rs', rest'.
    cbn [ints map unrolled]. fold (ints rest).
    change [Number (inject_Z c0); Number (inject_Z c1); Number (inject_Z c2);
            Number (inject_Z c3); Number (inject_Z c4); Number (inject_Z c5);
            Number (inject_Z c6); Number (inject_Z c7)]
      with (ints [c0; c1; c2; c3; c4; c5; c6; c7]).
    rewrite Hzs, Hrun. repeat split; auto. lia.
Qed.

Lemma sum8_ints (rs : list Z) :
  List.length rs = 8%nat -> Forall (fun z => 0 <= z) rs ->
  zsum rs <= 2 ^ 53 ->
  sum8 (ints rs) = Number (inject_Z (zsum rs)).
Proof.
  intros Hlen Hnn Hmax.
  destruct rs as [|r0 [|r1 [|r2 [|r3 [|r4 [|r5 [|r6 [|r7 [|r8 rs]]]]]]]]];
    try discriminate.
  repeat match goal with
         | H : Forall _ (_ :: _) |- _ =>
             apply Forall_cons_iff in H; destruct H
         end.
  cbn [zsum fold_right] in Hmax |- *. cbn [ints map sum8].
  rewrite !fadd_ints by lia. f_equal. f_equal. lia.
Qed.

Lemma block_sum_ints (zs : list Z) :
  (8 <= List.length zs)%nat -> Forall (fun z => 0 <= z) zs ->
  zsum zs <= 2 ^ 53 ->
  block_sum (ints zs) = Number (inject_Z (zsum zs)).
Proof.
  intros Hlen Hnn Hmax. unfold block_sum.
  rewrite ints_firstn, ints_skipn.
  destruct (Forall_firstn_nonneg 8 zs Hnn) as [Hhead Htail].
  pose proof (zsum_split 8 zs) as Hsum.
  destruct (unrolled_ints (List.length (skipn 8 zs)) (skipn 8 zs) (firstn 8 zs))
    as (rs & rest & Hrun & Hl & Hrs & Hrest & Hsum');
    [lia | rewrite length_firstn; lia | assumption | assumption | lia |].
  rewrite Hrun.
  pose proof (zsum_nonneg rs Hrs). pose proof (zsum_nonneg rest Hrest).
  rewrite sum8_ints by (assumption || lia).
  rewrite fold_ints by (assumption || lia).
  f_equal. f_equal. lia.
Qed.

Lemma pairwise_sum_ints (fuel : nat) :
  forall zs,
    (List.length zs <= fuel)%nat -> Forall (fun z => 0 <= z) zs ->
    zsum zs <= 2 ^ 53 ->
    pairwise_sum fuel (ints zs) = Number (inject_Z (zsum zs)).
Proof.
  assert (Hsmall : forall zs,
             Forall (fun z => 0 <= z) zs -> zsum zs <= 2 ^ 53 ->
             fold_left fadd (ints zs) (Number 0) = Number (inject_Z (zsum zs))).
  { intros zs Hnn Hmax. change (Number 0) with (Number (inject_Z 0)).
    rewrite fold_ints by (assumption || lia). reflexivity. }
  induction fuel as [|fuel IH]; intros zs Hlen Hnn Hmax;
    cbn [pairwise_sum]; rewrite ints_length.
  - replace (List.length zs <? 8)%nat with true
      by (symmetry; apply Nat.ltb_lt; lia).
    now apply Hsmall.
  - destruct (Nat.ltb_spec (List.length zs) 8) as [H8|H8];
      [now apply Hsmall|].
    destruct (Nat.leb_spec (List.length zs) 128) as [H128|H128];
      [now apply block_sum_ints|].
    set (n2 := (List.length zs / 2 - (List.length zs / 2) mod 8)%nat).
    assert (Hhalf : (List.length zs / 2 < List.length zs)%nat)
      by (apply Nat.div_lt; lia).
    assert (H64 : (64 <= List.length zs / 2)%nat)
      by (apply Nat.div_le_lower_bound; lia).
    assert (Hmod : ((List.length zs / 2) mod 8 < 8)%nat)
      by (apply Nat.mod_upper_bound; lia).
    assert (Hn2 : (1 <= n2 < List.length zs)%nat) by (unfold n2; lia).
    rewrite ints_firstn, ints_skipn.
    destruct (Forall_firstn_nonneg n2 zs Hnn) as [Hhead Htail].
    pose proof (zsum_split n2 zs) as Hsum.
    pose proof (zsum_nonneg _ Hhead). pose proof (zsum_nonneg _ Htail).
    rewrite !IH;
      [| rewrite length_skipn; lia | assumption | lia
       | rewrite length_firstn; lia | assumption | lia ].
    rewrite fadd_ints by lia. now rewrite Hsum.
Qed.

Lemma np_sum_ints (zs : list Z) :
  Forall (fun z => 0 <= z) zs -> zsum zs <= 2 ^ 53 ->
  np_sum (ints zs) = Number (inject_Z (zsum zs)).
Proof.
  intros Hnn Hmax. unfold np_sum.
  rewrite pairwise_sum_ints; [| rewrite ints_length; lia | assumption | assumption].
  pose proof (zsum_nonneg zs Hnn).
  change (Number 0) with (Number (inject_Z 0)).
  rewrite fadd_ints by lia. reflexivity.
Qed.

(** ** The cloud ratio of a boolean mask *)

Lemma indicator_range (p : option float64) : 0 <= indicator p <= 1.
Proof.
  destruct p as [[q| |]|]; cbn [indicator]; try lia.
  destruct (Qeq_bool q 1); lia.
Qed.

Lemma filled0_binary (p : option float64) :
  binary_pixel p -> filled0 p = Number (inject_Z (indicator p)).
Proof.
  destruct p as [[q| |]|]; cbn [binary_pixel filled0 indicator store];
    try contradiction; [|reflexivity].
  intros [H0|H1].
  - replace (Qeq_bool q 1) with false.
    + rewrite (fl_int q 0 H0) by lia. reflexivity.
    + symmetry. apply not_true_iff_false. intros E.
      apply Qeq_bool_iff in E. rewrite H0 in E. discriminate E.
  - rewrite (proj2 (Qeq_bool_iff q 1) H1).
    rewrite (fl_int q 1 H1) by lia. reflexivity.
Qed.

Lemma map_filled0_binary (pixels : list (option float64)) :
  Forall binary_pixel pixels ->
  map filled0 pixels = ints (map indicator pixels).
Proof.
  induction 1 as [|p pixels Hp _ IH]; [reflexivity|].
  cbn [map ints]. fold (ints (map indicator pixels)).
  now rewrite IH, (filled0_binary p Hp).
Qed.

Lemma indicators_nonneg (pixels : list (option float64)) :
  Forall (fun z => 0 <= z) (map indicator pixels).
Proof.
  apply Forall_map, Forall_forall. intros p _.
  pose proof (indicator_range p). lia.
Qed.

Lemma cloudy_count_le_unmasked (pixels : list (option float64)) :
  0 <= cloudy_count pixels <= count_unmasked pixels.
Proof.
  unfold cloudy_count, count_unmasked.
  induction pixels as [|p pixels IH]; [cbn; lia|].
  cbn [map zsum fold_right filter]. fold (zsum (map indicator pixels)).
  pose proof (indicator_range p) as Hp.
  destruct p as [v|]; cbn [is_unmasked List.length].
  - lia.
  - cbn [indicator] in *. lia.
Qed.

Lemma count_unmasked_le_length (pixels : list (option float64)) :
  0 <= count_unmasked pixels <= Z.of_nat (List.length pixels).
Proof.
  unfold count_unmasked. pose proof (filter_length_le is_unmasked pixels). lia.
Qed.

Lemma unmasked_values_length (pixels : list (option float64)) :
  Forall binary_pixel pixels ->
  List.length (unmasked_values pixels)
  = List.length (filter is_unmasked pixels).
Proof.
  induction 1 as [|p pixels Hp _ IH]; [reflexivity|].
  destruct p as [[q| |]|]; cbn [binary_pixel] in Hp; try contradiction;
    cbn [unmasked_values filter is_unmasked List.length]; now rewrite ?IH.
Qed.

(** The exact sum and count of the values of a boolean mask. *)
Lemma unmasked_values_binary (pixels : list (option float64)) :
  Forall binary_pixel pixels ->
  (total (unmasked_values pixels) == inject_Z (cloudy_count pixels))%Q /\
  (pixel_count (unmasked_values pixels) == inject_Z (count_unmasked pixels))%Q.
Proof.
  intros Hbin. split.
  - unfold cloudy_count.
    induction Hbin as [|p pixels Hp _ IH]; [reflexivity|].
    destruct p as [[q| |]|]; cbn [binary_pixel] in Hp; try contradiction;
      cbn [unmasked_values total fold_right map zsum indicator];
      fold (total (unmasked_values pixels)) (zsum (map indicator pixels));
      [|exact IH].
    rewrite inject_Z_plus, IH.
    destruct Hp as [H0|H1].
    + replace (Qeq_bool q 1) with false; [rewrite H0; reflexivity|].
      symmetry. apply not_true_iff_false. intros E.
      apply Qeq_bool_iff in E. rewrite H0 in E. discriminate E.
    + rewrite (proj2 (Qeq_bool_iff q 1) H1), H1. reflexivity.
  - unfold pixel_count, count_unmasked.
    now rewrite (unmasked_values_length pixels Hbin).
Qed.

(** On a boolean mask the sum is the exact number of cloudy pixels, and the
    mean is that number divided by the number of pixels not masked, rounded
    once. *)
Lemma cloud_ratio_binary (mask_array : MaskedArray) :
  0 < count_unmasked (pixels_of mask_array) ->
  Z.of_nat (List.length (pixels_of mask_array)) <= 2 ^ 53 ->
  Forall binary_pixel (pixels_of mask_array) ->
  cloud_ratio mask_array
  = Some (Number (fl (inject_Z (cloudy_count (pixels_of mask_array))
                      / inject_Z (count_unmasked (pixels_of mask_array))))).
Proof.
  intros Hcount Hlen Hbin. unfold cloud_ratio, mean.
  pose proof (cloudy_count_le_unmasked (pixels_of mask_array)) as Hk.
  pose proof (count_unmasked_le_length (pixels_of mask_array)) as Hn.
  cbv zeta.
  replace (count_unmasked (pixels_of mask_array) =? 0) with false
    by (symmetry; apply Z.eqb_neq; lia).
  rewrite (map_filled0_binary _ Hbin).
  rewrite np_sum_ints;
    [| apply indicators_nonneg
     | fold (cloudy_count (pixels_of mask_array)); lia].
  fold (cloudy_count (pixels_of mask_array)). unfold fdiv_count.
  rewrite (fl_int (inject_Z (count_unmasked (pixels_of mask_array)))
                  (count_unmasked (pixels_of mask_array)) (Qeq_refl _)) by lia.
  reflexivity.
Qed.

Lemma pixels_perm_invariants (pixels pixels' : list (option float64)) :
  Permutation pixels pixels' ->
  cloudy_count pixels' = cloudy_count pixels /\
  count_unmasked pixels' = count_unmasked pixels /\
  List.length pixels' = List.length pixels /\
  (Forall binary_pixel pixels -> Forall binary_pixel pixels').
Proof.
  intros Hperm. unfold cloudy_count, count_unmasked.
  split; [|split; [|split]].
  - symmetry. apply zsum_perm, Permutation_map, Hperm.
  - f_equal. symmetry. apply Permutation_length.
    induction Hperm as [|p l l' _ IH|p p' l|l l' l'' _ IH1 _ IH2].
    + constructor.
    + cbn [filter]. destruct (is_unmasked p); [now apply perm_skip | exact IH].
    + cbn [filter]. destruct (is_unmasked p), (is_unmasked p');
        try apply Permutation_refl. apply perm_swap.
    + eapply perm_trans; eassumption.
  - symmetry. now apply Permutation_length.
  - intros H. eapply Permutation_Forall; eassumption.
Qed.

Lemma masked_shape_length (ar : MaskedArray) (bands rows cols : nat) :
  masked_shape ar bands rows cols ->
  List.length (pixels_of ar) = (bands * rows * cols)%nat.
Proof.
  intros [Hb Hrows]. unfold pixels_of.
  rewrite (length_concat_uniform (concat ar) cols).
  - rewrite (length_concat_uniform ar rows), Hb; [reflexivity|].
    eapply Forall_impl; [|exact Hrows]. now intros band [H _].
  - apply Forall_concat.
    eapply Forall_impl; [|exact Hrows]. now intros band [_ H].
Qed.

Lemma cloudy_count_all (v : Q) (pixels : list (option float64)) :
  Forall (pixel_has_value v) pixels ->
  ((v == 0)%Q -> cloudy_count pixels = 0) /\
  ((v == 1)%Q -> cloudy_count pixels = count_unmasked pixels) /\
  ((v == 0 \/ v == 1)%Q -> Forall binary_pixel pixels).
Proof.
  unfold cloudy_count, count_unmasked.
  induction 1 as [|p pixels Hp _ (IH0 & IH1 & IHb)];
    [split; [|split]; intros; constructor|].
  destruct p as [[q| |]|]; cbn [pixel_has_value] in Hp; try contradiction;
    cbn [map zsum fold_right filter is_unmasked indicator List.length];
    fold (zsum (map indicator pixels)).
  - split; [|split].
    + intros Hv. replace (Qeq_bool q 1) with false; [rewrite IH0; auto|].
      symmetry. apply not_true_iff_false. intros E.
      apply Qeq_bool_iff in E. rewrite Hp, Hv in E. discriminate E.
    + intros Hv. rewrite (proj2 (Qeq_bool_iff q 1)) by (now rewrite Hp).
      rewrite IH1 by exact Hv. lia.
    + intros Hv. constructor; [|auto]. cbn [binary_pixel].
      destruct Hv as [Hv|Hv]; [left | right]; now rewrite Hp.
  - split; [|split]; auto.
Qed.

(** The scenario mask, summed by blocks and pairs as numpy does: 100 x 100
    pixels, the first 5000 of value 1. *)
Example cloud_ratio_scenario :
  cloud_ratio (as_masked (block_mask 100 100 5000)) = Some (Number (1 # 2)).
Proof. vm_compute. reflexivity. Qed.

(** Masked pixels count neither in the sum nor in the number of pixels, and
    a mask without pixel left has no ratio. *)
Example cloud_ratio_masked_pixels :
  cloud_ratio [[[f64 1; None; f64 0]; [None; None; f64 1]]]
  = Some (Number (fl (2 # 3))) /\
  cloud_ratio [[[None; None]]] = None.
Proof. split; vm_compute; reflexivity. Qed.

(** C3, as the binary64 mean has it: on a mask of values 0 and 1 with at
    least one pixel that is not masked (and no more than 2^53 pixels),
    [cloud_ratio] is the arithmetic mean of the mask values rounded once to
    binary64, does not depend on the order of the pixels, is exactly 0 when
    every pixel is 0 and exactly 1 when every pixel is 1; a 100 x 100 mask
    with exactly 5000 pixels of value 1 and the others 0 has ratio 0.5. *)
Theorem cloud_ratio_binary_mask (mask_array : MaskedArray) :
  0 < count_unmasked (pixels_of mask_array) ->
  Z.of_nat (List.length (pixels_of mask_array)) <= 2 ^ 53 ->
  Forall binary_pixel (pixels_of mask_array) ->
  cloud_ratio mask_array
  = Some (Number
            (fl (total (unmasked_values (pixels_of mask_array))
                 / pixel_count (unmasked_values (pixels_of mask_array))))) /\
  (forall other,
      Permutation (pixels_of mask_array) (pixels_of other) ->
      cloud_ratio other = cloud_ratio mask_array) /\
  (Forall (pixel_has_value 0) (pixels_of mask_array) ->
   cloud_ratio mask_array = Some (Number 0)) /\
  (Forall (pixel_has_value 1) (pixels_of mask_array) ->
   cloud_ratio mask_array = Some (Number 1)) /\
  (masked_shape mask_array 1 100 100 ->
   count_unmasked (pixels_of mask_array) = 10000 ->
   cloudy_count (pixels_of mask_array) = 5000 ->
   cloud_ratio mask_array = Some (Number (1 # 2))).
Proof.
  intros Hcount Hlen Hbin.
  pose proof (cloud_ratio_binary mask_array Hcount Hlen Hbin) as Hratio.
  split; [|split; [|split; [|split]]].
  - rewrite Hratio. f_equal. f_equal. apply fl_proper.
    destruct (unmasked_values_binary _ Hbin) as [Ht Hc].
    now rewrite Ht, Hc.
  - intros other Hperm.
    destruct (pixels_perm_invariants _ _ Hperm) as (Hk & Hn & Hl & Hb).
    rewrite Hratio, (cloud_ratio_binary other); [now rewrite Hk, Hn | | |].
    + now rewrite Hn.
    + now rewrite Hl.
    + now apply Hb.
  - intros Hzero. rewrite Hratio.
    destruct (cloudy_count_all 0 _ Hzero) as (Hk & _ & _).
    rewrite Hk by reflexivity.
    rewrite (fl_int _ 0); [reflexivity| |lia].
    unfold Qdiv. ring.
  - intros Hone. rewrite Hratio.
    destruct (cloudy_count_all 1 _ Hone) as (_ & Hk & _).
    rewrite Hk by reflexivity.
    rewrite (fl_int _ 1); [reflexivity| |lia].
    field. intros H. unfold Qeq in H. cbn [Qnum Qden inject_Z] in H. lia.
  - intros _ Hn Hk. rewrite Hratio, Hn, Hk. reflexivity.
Qed.

Lemma cloud_ratio_binary_mask_witness :
  0 < count_unmasked (pixels_of (as_masked (block_mask 2 2 2))) /\
  Z.of_nat (List.length (pixels_of (as_masked (block_mask 2 2 2)))) <= 2 ^ 53 /\
  Forall binary_pixel (pixels_of (as_masked (block_mask 2 2 2))) /\
  cloud_ratio (as_masked (block_mask 2 2 2)) = Some (Number (1 # 2)) /\
  cloud_ratio [[[f64 0; f64 1]; [f64 1; f64 0]]]
  = cloud_ratio (as_masked (block_mask 2 2 2)).
Proof.
  assert (Hcount : 0 < count_unmasked (pixels_of (as_masked (block_mask 2 2 2))))
    by reflexivity.
  assert (Hlen : Z.of_nat (List.length (pixels_of (as_masked (block_mask 2 2 2))))
                 <= 2 ^ 53) by (vm_compute; discriminate).
  assert (Hbin : Forall binary_pixel (pixels_of (as_masked (block_mask 2 2 2)))).
  { repeat constructor; cbn [binary_pixel];
      first [left; reflexivity | right; reflexivity]. }
  split; [exact Hcount|]. split; [exact Hlen|]. split; [exact Hbin|].
  destruct (cloud_ratio_binary_mask _ Hcount Hlen Hbin) as (Hmean & Hperm & _).
  split; [rewrite Hmean; reflexivity|].
  apply Hperm.
  change (Permutation [Some (Number 1); Some (Number 1);
                       Some (Number 0); Some (Number 0)]
                      [Some (Number 0); Some (Number 1);
                       Some (Number 1); Some (Number 0)]).
  apply perm_trans with (l' := [Some (Number 1); Some (Number 0);
                                Some (Number 1); Some (Number 0)]).
  - apply perm_skip, perm_swap.
  - apply perm_swap.
Defined.

(** C3, as stated, fails: the mean is computed in binary64.  The masks
    [0.1, 0.2, 0.3] and [0.3, 0.2, 0.1] hold the same pixels in another order
    and have the ratios 0.20000000000000004 and 0.19999999999999998; the
    ratio of six pixels of 0.1 is 0.09999999999999999, not the arithmetic
    mean of its values, which is the binary64 number 0.1; and the ratio of
    an array without pixel, where every pixel is valid and every pixel is
    cloud, is no number. *)
Lemma cloud_ratio_depends_on_order :
  Permutation (pixels_of [[[f64 (1 # 10); f64 (2 # 10); f64 (3 # 10)]]])
              (pixels_of [[[f64 (3 # 10); f64 (2 # 10); f64 (1 # 10)]]]) /\
  cloud_ratio [[[f64 (1 # 10); f64 (2 # 10); f64 (3 # 10)]]]
  = Some (Number (7205759403792795 # 36028797018963968)) /\
  cloud_ratio [[[f64 (3 # 10); f64 (2 # 10); f64 (1 # 10)]]]
  = Some (Number (7205759403792793 # 36028797018963968)) /\
  cloud_ratio [[[f64 (1 # 10); f64 (1 # 10); f64 (1 # 10);
                 f64 (1 # 10); f64 (1 # 10); f64 (1 # 10)]]]
  = Some (Number (7205759403792793 # 72057594037927936)) /\
  f64 (1 # 10) = Some (Number (3602879701896397 # 36028797018963968)) /\
  (total (repeat (3602879701896397 # 36028797018963968) 6)
   / pixel_count (repeat (3602879701896397 # 36028797018963968) 6)
   == 3602879701896397 # 36028797018963968)%Q /\
  cloud_ratio [] = None.
Proof.
  split.
  { change (Permutation [f64 (1 # 10); f64 (2 # 10); f64 (3 # 10)]
                        [f64 (3 # 10); f64 (2 # 10); f64 (1 # 10)]).
    apply perm_trans with (l' := [f64 (2 # 10); f64 (1 # 10); f64 (3 # 10)]);
      [apply perm_swap|].
    apply perm_trans with (l' := [f64 (2 # 10); f64 (3 # 10); f64 (1 # 10)]);
      [apply perm_skip, perm_swap | apply perm_swap]. }
  repeat split; vm_compute; reflexivity.
Qed.

(** ** Geometries that miss the grid *)

Section MissFacts.
Local Open Scope Q_scope.

(** One axis of an axis-aligned grid: when the rounded and clamped interval
    of pixel coordinates is not empty, some coordinate of the envelope falls
    on the grid. *)
Lemma preimage_1d (k off lo hi u v bound : Q) :
  ~ k == 0 -> lo <= hi ->
  u == (lo - off) / k -> v == (hi - off) / k ->
  Qmin u v < bound -> 0 < Qmax u v -> 0 < bound ->
  exists x, (lo <= x /\ x <= hi) /\
            (0 <= (x - off) / k /\ (x - off) / k <= bound).
Proof.
  intros Hk Hle Hu Hv Hlo Hhi Hb.
  assert (Eu : u * k == lo - off) by (rewrite Hu; field; exact Hk).
  assert (Ev : v * k == hi - off) by (rewrite Hv; field; exact Hk).
  set (c := Qmax 0 (Qmin u v)).
  assert (Hc : 0 <= c /\ c <= bound /\ Qmin u v <= c /\ c <= Qmax u v)
    by (unfold c; qminmax; lra).
  exists (k * c + off).
  assert (Ec : (k * c + off - off) / k == c) by (field; exact Hk).
  rewrite Ec. split; [|split; tauto].
  destruct Hc as (_ & _ & Hc0 & Hc1). clearbody c. clear Ec Hlo Hhi Hu Hv.
  destruct (Q_dec k 0) as [[Hneg|Hpos]|Hz]; [| |contradiction].
  - assert (Hvu : v <= u) by nra.
    assert (Emin : Qmin u v == v) by (qminmax; lra).
    assert (Emax : Qmax u v == u) by (qminmax; lra).
    rewrite Emin in Hc0. rewrite Emax in Hc1. split; nra.
  - assert (Huv : u <= v) by nra.
    assert (Emin : Qmin u v == u) by (qminmax; lra).
    assert (Emax : Qmax u v == v) by (qminmax; lra).
    rewrite Emin in Hc0. rewrite Emax in Hc1. split; nra.
Qed.

Lemma floor_lt_inv (x : Q) (z : Z) : (Qfloor x < z)%Z -> x < inject_Z z.
Proof.
  intros H. destruct (Qlt_le_dec x (inject_Z z)) as [Hlt|Hge]; [exact Hlt|].
  apply floor_ge in Hge. lia.
Qed.

Lemma ceiling_gt_inv (x : Q) (z : Z) : (z < Qceiling x)%Z -> inject_Z z < x.
Proof.
  intros H. destruct (Qlt_le_dec (inject_Z z) x) as [Hlt|Hge]; [exact Hlt|].
  apply ceiling_le in Hge. lia.
Qed.

(** On an axis-aligned grid, a window that is not empty after clamping comes
    from an envelope that intersects the grid. *)
Lemma nonempty_meets_grid (env : Envelope) (t : Affine) (size : RasterSize) :
  axis_aligned t ->
  minx env <= maxx env -> miny env <= maxy env ->
  is_empty (clamp (round_outward (pixel_bounds env t)) size) = false ->
  envelope_meets_grid env t size.
Proof.
  intros Ht Hx Hy Hne.
  pose proof Ht as (_ & _ & Ha & He).
  apply clamp_valid in Hne.
  unfold valid_window, clamp, round_outward in Hne.
  cbn [row_start row_stop col_start col_stop] in Hne.
  destruct Hne as (_ & Hr & _ & _ & Hc & _).
  assert (Hrlo : row_lo (pixel_bounds env t) < inject_Z (height size))
    by (apply floor_lt_inv; lia).
  assert (Hrhi : inject_Z 0 < row_hi (pixel_bounds env t))
    by (apply ceiling_gt_inv; lia).
  assert (Hclo : col_lo (pixel_bounds env t) < inject_Z (width size))
    by (apply floor_lt_inv; lia).
  assert (Hchi : inject_Z 0 < col_hi (pixel_bounds env t))
    by (apply ceiling_gt_inv; lia).
  assert (Hh : inject_Z 0 < inject_Z (height size))
    by (rewrite <- Zlt_Qlt; lia).
  assert (Hw : inject_Z 0 < inject_Z (width size))
    by (rewrite <- Zlt_Qlt; lia).
  change (inject_Z 0) with 0%Q in *.
  unfold pixel_bounds in Hrlo, Hrhi, Hclo, Hchi.
  cbn [col_lo col_hi row_lo row_hi] in Hrlo, Hrhi, Hclo, Hchi.
  destruct (invert_axis_aligned t (minx env) (miny env) Ht) as [C1 R1].
  destruct (invert_axis_aligned t (minx env) (maxy env) Ht) as [C2 R2].
  destruct (invert_axis_aligned t (maxx env) (miny env) Ht) as [C3 R3].
  destruct (invert_axis_aligned t (maxx env) (maxy env) Ht) as [C4 R4].
  rewrite (min4_pairs _ _ _ _ _ _ C1 C2 C3 C4) in Hclo.
  rewrite (max4_pairs _ _ _ _ _ _ C1 C2 C3 C4) in Hchi.
  rewrite (min4_alternate _ _ _ _ _ _ R1 R2 R3 R4) in Hrlo.
  rewrite (max4_alternate _ _ _ _ _ _ R1 R2 R3 R4) in Hrhi.
  destruct (preimage_1d (af_a t) (af_c t) (minx env) (maxx env) _ _ _
              Ha Hx (Qeq_refl _) (Qeq_refl _) Hclo Hchi Hw)
    as (x & Hxin & Hxgrid).
  destruct (preimage_1d (af_e t) (af_f t) (miny env) (maxy env) _ _ _
              He Hy (Qeq_refl _) (Qeq_refl _) Hrlo Hrhi Hh)
    as (y & Hyin & Hygrid).
  exists x, y. split; [unfold in_envelope; tauto|].
  destruct (invert_axis_aligned t x y Ht) as [Cx Ry].
  rewrite Cx, Ry. tauto.
Qed.

(** A box 100 km west of the scenario raster has no point on its grid, and
    is refused. *)
Example resolve_window_west_of_scenario :
  axis_aligned scenario_transform /\
  ~ envelope_meets_grid (bounds (Box 400000 9930000 401000 9931000))
                        scenario_transform scenario_size /\
  resolve_window (Box 400000 9930000 401000 9931000)
                 scenario_transform scenario_size
  = Raise "OutOfBounds"%string.
Proof.
  assert (Ht : axis_aligned scenario_transform).
  { unfold axis_aligned. repeat split; try reflexivity;
      intro H; vm_compute in H; discriminate H. }
  split; [exact Ht|]. split; [|reflexivity].
  intros (x & y & Hin & Hc0 & _).
  destruct (invert_axis_aligned scenario_transform x y Ht) as [Cx _].
  rewrite Cx in Hc0. cbn [scenario_transform af_a af_c] in Hc0.
  assert (Hx : x <= 401000).
  { destruct Hin as (_ & H & _). exact H. }
  assert (Ecol : (x - 499980) / 10 == (x - 499980) * (1 # 10)) by field.
  rewrite Ecol in Hc0. lra.
Qed.

(** C7, as the resolver has it: [resolve_window] clamps the rounded
    rectangle to the raster's dimensions and fails with [OutOfBounds]
    exactly when the clamped window is empty.  It does so whenever the pixel
    bounds of the envelope share no interior point with the grid and, on an
    axis-aligned raster, whenever the envelope does not intersect the grid;
    it always either fails so or returns a window, and every window it
    returns satisfies [0 <= row_start < row_stop <= height] and
    [0 <= col_start < col_stop <= width]. *)
Theorem resolve_window_clamps_or_fails (g : Geometry) (t : Affine)
  (size : RasterSize) :
  (disjoint_from_grid (pixel_bounds (bounds g) t) size ->
   resolve_window g t size = Raise "OutOfBounds"%string) /\
  (axis_aligned t ->
   ~ envelope_meets_grid (bounds g) t size ->
   resolve_window g t size = Raise "OutOfBounds"%string) /\
  (is_empty (clamp (round_outward (pixel_bounds (bounds g) t)) size) = true <->
   resolve_window g t size = Raise "OutOfBounds"%string) /\
  (forall w,
      resolve_window g t size = Ok w ->
      w = clamp (round_outward (pixel_bounds (bounds g) t)) size /\
      valid_window w size) /\
  (resolve_window g t size = Raise "OutOfBounds"%string \/
   exists w, resolve_window g t size = Ok w).
Proof.
  assert (Hempty :
           is_empty (clamp (round_outward (pixel_bounds (bounds g) t)) size)
           = true ->
           resolve_window g t size = Raise "OutOfBounds"%string).
  { intros He. destruct (resolve_window_cases g t size) as [[_ H]|[He' _]];
      [exact H | congruence]. }
  split; [|split; [|split; [|split]]].
  - intros Hd. apply Hempty, disjoint_empty, Hd.
  - intros Ht Hmiss.
    destruct (resolve_window_cases g t size) as [[_ H]|[He _]]; [exact H|].
    destruct (bounds_ordered g) as [Hx Hy].
    contradiction Hmiss.
    exact (nonempty_meets_grid (bounds g) t size Ht Hx Hy He).
  - split; [exact Hempty|]. intros Hfail.
    destruct (resolve_window_cases g t size) as [[He _]|[_ H]];
      [exact He | congruence].
  - apply resolve_window_returns_valid.
  - destruct (resolve_window_cases g t size) as [[_ H]|[_ H]];
      [now left | right; eauto].
Qed.

(** C7, as stated, fails on a rotated raster: on the grid turned by 45
    degrees, where [y = col + row], the box with [y] between -7/2 and -1/2
    has no point on the grid of 10 x 10 pixels, yet the pixel bounds of its
    envelope reach over the corner of the grid and the window of the pixel
    (0, 0) is returned. *)
Lemma resolve_window_rotated_outside_grid :
  ~ envelope_meets_grid (bounds (Box (-3 # 2) (-7 # 2) (3 # 2) (-1 # 2)))
                        rotated_transform (mkSize 10 10) /\
  resolve_window (Box (-3 # 2) (-7 # 2) (3 # 2) (-1 # 2))
                 rotated_transform (mkSize 10 10)
  = Ok (mkWindow 0 1 0 1).
Proof.
  split; [|reflexivity].
  intros (x & y & Hin & Hc0 & _ & Hr0 & _).
  assert (Hy : y <= - (1 # 2)).
  { destruct Hin as (_ & _ & _ & H). exact H. }
  assert (Esum : fst (apply_affine (invert rotated_transform) (x, y))
                 + snd (apply_affine (invert rotated_transform) (x, y)) == y).
  { unfold apply_affine, invert, determinant, rotated_transform.
    cbn [fst snd af_a af_b af_c af_d af_e af_f]. field. }
  lra.
Qed.

End MissFacts.

(** ** The range of the cloud ratio *)

Section UnitFacts.
Local Open Scope Q_scope.

Lemma round_half_even_range (x : Q) (m : Z) :
  0 <= x -> x <= inject_Z m -> (0 <= round_half_even x <= m)%Z.
Proof.
  intros H0 Hm. unfold round_half_even.
  assert (Hf0 : (0 <= Qfloor x)%Z) by (apply (floor_ge x 0); exact H0).
  assert (Hfx : inject_Z (Qfloor x) <= x) by apply Qfloor_le.
  assert (Hfm : (Qfloor x <= m)%Z) by (rewrite Zle_Qle; lra).
  destruct (x - inject_Z (Qfloor x) ?= 1 # 2) eqn:E.
  - apply Qeq_alt in E.
    assert (Hlt : inject_Z (Qfloor x) < inject_Z m) by lra.
    rewrite <- Zlt_Qlt in Hlt. destruct (Z.even (Qfloor x)); lia.
  - lia.
  - apply Qgt_alt in E.
    assert (Hlt : inject_Z (Qfloor x) < inject_Z m) by lra.
    rewrite <- Zlt_Qlt in Hlt. lia.
Qed.

Lemma ilog2_below_one (a : Q) : 0 < a -> a < 1 -> (ilog2 a <= -1)%Z.
Proof.
  intros Hpos Hlt. unfold ilog2.
  set (k := (Z.log2 (Qnum a) - Z.log2 (Z.pos (Qden a)))%Z).
  assert (Hk : (k <= 0)%Z).
  { unfold Qlt in Hlt. cbn [Qnum Qden] in Hlt.
    assert (Hnd : (Qnum a <= Z.pos (Qden a))%Z) by lia.
    apply Z.log2_le_mono in Hnd. unfold k. lia. }
  destruct (Qle_bool (pow2 k) a) eqn:E; [|lia].
  apply Qle_bool_iff in E.
  destruct (Z.eq_dec k 0) as [Hz|Hnz]; [|lia].
  rewrite Hz in E. change (pow2 0) with 1 in E. lra.
Qed.

Lemma fl_pos_unit (a : Q) : 0 < a -> a < 1 -> 0 <= fl_pos a /\ fl_pos a <= 1.
Proof.
  intros Hpos Hlt. unfold fl_pos.
  pose proof (ilog2_below_one a Hpos Hlt) as Hlog.
  set (e := Z.max (-1074) (ilog2 a - 52)).
  assert (He : (e <= 0)%Z) by (unfold e; lia).
  pose proof (pow2_nonpos e He) as Hpow.
  assert (HM : (0 < 2 ^ (- e))%Z) by (apply Z.pow_pos_nonneg; lia).
  assert (HMq : 0 < inject_Z (2 ^ (- e)))
    by (change 0 with (inject_Z 0); rewrite <- Zlt_Qlt; exact HM).
  set (M := (2 ^ (- e))%Z) in *. set (P := pow2 e) in *.
  assert (HP : 0 < P) by nra.
  assert (HPnz : ~ P == 0) by lra.
  assert (Hdiv : a / P == a * inject_Z M).
  { setoid_replace (a / P) with (a * (P * inject_Z M) / P)
      by (rewrite Hpow; field; exact HPnz).
    field. exact HPnz. }
  assert (Hx0 : 0 <= a / P) by (rewrite Hdiv; nra).
  assert (HxM : a / P <= inject_Z M) by (rewrite Hdiv; nra).
  destruct (round_half_even_range _ _ Hx0 HxM) as [Hr0 HrM].
  rewrite Zle_Qle in Hr0, HrM. change (inject_Z 0) with 0 in Hr0.
  split; nra.
Qed.

(** The rounding keeps a ratio within the unit interval: 0 and 1 are
    binary64 numbers. *)
Lemma fl_unit (q : Q) : 0 <= q -> q <= 1 -> 0 <= fl q /\ fl q <= 1.
Proof.
  intros H0 H1.
  destruct (Qeq_dec q 0) as [Ez|Hnz].
  { rewrite (fl_int q 0 Ez) by lia. split; [apply Qle_refl | discriminate]. }
  destruct (Qeq_dec q 1) as [Eo|Hno].
  { rewrite (fl_int q 1 Eo) by lia. split; [discriminate | apply Qle_refl]. }
  unfold fl. pose proof (Qred_correct q) as Ha.
  set (a := Qred q) in *.
  assert (Hapos : 0 < a) by (rewrite Ha; lra).
  assert (Halt : a < 1) by (rewrite Ha; lra).
  rewrite (proj1 (Qgt_alt a 0) Hapos), Qred_correct.
  exact (fl_pos_unit a Hapos Halt).
Qed.

End UnitFacts.

(** X6: the cloud ratio of a boolean mask with at least one pixel that is
    not masked (and no more than 2^53 pixels) is a number between 0 and 1,
    the rounding of the mean included. *)
Theorem cloud_ratio_unit_interval (mask_array : MaskedArray) :
  0 < count_unmasked (pixels_of mask_array) ->
  Z.of_nat (List.length (pixels_of mask_array)) <= 2 ^ 53 ->
  Forall binary_pixel (pixels_of mask_array) ->
  exists q, cloud_ratio mask_array = Some (Number q) /\ (0 <= q /\ q <= 1)%Q.
Proof.
  intros Hcount Hlen Hbin.
  rewrite (cloud_ratio_binary mask_array Hcount Hlen Hbin).
  eexists. split; [reflexivity|].
  pose proof (cloudy_count_le_unmasked (pixels_of mask_array)) as [Hk0 Hkn].
  set (k := cloudy_count (pixels_of mask_array)) in *.
  set (n := count_unmasked (pixels_of mask_array)) in *.
  assert (Hn : (0 < inject_Z n)%Q)
    by (change 0%Q with (inject_Z 0); rewrite <- Zlt_Qlt; exact Hcount).
  assert (Hk : (0 <= inject_Z k)%Q)
    by (change 0%Q with (inject_Z 0); rewrite <- Zle_Qle; exact Hk0).
  assert (Hle : (inject_Z k <= inject_Z n)%Q) by (rewrite <- Zle_Qle; exact Hkn).
  apply fl_unit.
  - apply Qle_shift_div_l; [exact Hn | lra].
  - apply Qle_shift_div_r; [exact Hn | lra].
Qed.

Lemma cloud_ratio_unit_interval_witness :
  0 < count_unmasked (pixels_of [[[f64 1; None; f64 0]; [None; f64 0; None]]]) /\
  Z.of_nat (List.length
              (pixels_of [[[f64 1; None; f64 0]; [None; f64 0; None]]]))
  <= 2 ^ 53 /\
  Forall binary_pixel
         (pixels_of [[[f64 1; None; f64 0]; [None; f64 0; None]]]) /\
  exists q,
    cloud_ratio [[[f64 1; None; f64 0]; [None; f64 0; None]]]
    = Some (Number q) /\ (0 <= q /\ q <= 1)%Q.
Proof.
  assert (Hcount : 0 < count_unmasked
                         (pixels_of [[[f64 1; None; f64 0];
                                      [None; f64 0; None]]]))
    by reflexivity.
  assert (Hlen : Z.of_nat (List.length
                             (pixels_of [[[f64 1; None; f64 0];
                                          [None; f64 0; None]]]))
                 <= 2 ^ 53) by (vm_compute; discriminate).
  assert (Hbin : Forall binary_pixel
                        (pixels_of [[[f64 1; None; f64 0];
                                     [None; f64 0; None]]])).
  { repeat constructor; vm_compute;
      first [left; reflexivity | right; reflexivity]. }
  split; [exact Hcount|]. split; [exact Hlen|]. split; [exact Hbin|].
  exact (cloud_ratio_unit_interval _ Hcount Hlen Hbin).
Defined.
